(** * udp-client-server: the timed, freshest-packet receive loop and the
      endpoint constructors

    A shallow embedding of [UdpUtils::readUdp] (include/udp_utils.h) and of
    the constructors of [udp_client_server::UdpClient] and
    [udp_client_server::UdpServer] (src/udp_client_server.cpp).

    Conventions.
    - C++ fixed-width integers are [Z] values with the conversion written
      out where the source converts ([to_int16], [to_uint16], [to_size_t]).
    - [double] is the kernel's binary64 [float]; the source's only
      floating-point expression is the timeout on line 63.
    - The template parameter [T] is [std::array<char, N>], as in
      udp_example.cpp; a packet buffer is a [list byte] of length [N], which
      is both [recv_packet.size()] and [sizeof(recv_packet_temp)].
    - The socket and the steady clock are the environment: one call of
      [readUdp] is run against a trace holding, per loop iteration, what
      [recv] did and what the clock showed at the end of that iteration.
      A trace is finite; a call that has not left the loop when the trace
      ends is reported as still polling. *)

From Stdlib Require Import ZArith List Bool Lia QArith.
From Stdlib Require Import Floats.
From Stdlib Require Uint63.
From Stdlib Require Strings.Byte.
Import ListNotations.

Local Open Scope Z_scope.

(** ** Fixed-width integers *)

Module Width.

(** Conversion of an integer value to [int16_t] (two's complement). *)
Definition to_int16 (z : Z) : Z := (z + 32768) mod 65536 - 32768.

(** Conversion to [uint16_t]. *)
Definition to_uint16 (z : Z) : Z := z mod 65536.

(** Conversion to [size_t] (64-bit build). *)
Definition to_size_t (z : Z) : Z := z mod 2 ^ 64.

(** Largest value of [int], the type of [recv]'s length and result. *)
Definition INT_MAX : Z := 2147483647.

End Width.

(** ** The timeout window (udp_utils.h, line 63) *)

Module Timeout.

(** [1.2] and [1000000.0] as the compiler reads them: the binary64 values
    nearest to the decimal literals ([1.2] is not a binary fraction; its
    nearest double is written out in hexadecimal). *)
Definition lit_1_2 : float := 0x1.3333333333333p+0%float.
Definition lit_1000000 : float := 1000000%float.

(** Integer-to-double conversion of the [uint16_t] rate (exact). *)
Definition double_of_uint16 (z : Z) : float := of_uint63 (Uint63.of_Z z).

(** The right-hand side of line 63, evaluated in binary64:
    [1.2 * (1000000.0 / udp_rate)]. *)
Definition timeout_double (udp_rate : Z) : float :=
  PrimFloat.mul lit_1_2 (PrimFloat.div lit_1000000 (double_of_uint16 udp_rate)).

(** The integer part of a double (truncation toward zero); [None] for an
    infinity or a NaN. *)
Definition double_trunc (f : float) : option Z :=
  match Prim2SF f with
  | S754_zero _ => Some 0
  | S754_finite s m e =>
      let v := if 0 <=? e then Z.pos m * 2 ^ e else Z.quot (Z.pos m) (2 ^ (- e)) in
      Some (if s then - v else v)
  | S754_infinity _ | S754_nan => None
  end.

(** Floating-integral conversion to [uint16_t]: the fractional part is
    discarded; the conversion is undefined ([None]) when the truncated
    value is not representable in the destination type. *)
Definition double_to_uint16 (f : float) : option Z :=
  match double_trunc f with
  | Some z => if (0 <=? z) && (z <=? 65535) then Some z else None
  | None => None
  end.

(** [uint16_t timeout_us = 1.2 * (1000000.0 / udp_rate);] *)
Definition timeout_us (udp_rate : Z) : option Z :=
  double_to_uint16 (timeout_double udp_rate).

(** The window as the specification words it, over the rationals:
    1.2 x (1,000,000 / rate). *)
Definition spec_window (udp_rate : Z) : Q :=
  (12 # 10) * (inject_Z 1000000 / inject_Z udp_rate).

(** Checks, for one rate, that line 63 yields a window [t] and that the
    exact window 1,200,000 / rate lies between [t] and [t + 1]. *)
Definition window_brackets (udp_rate : Z) : bool :=
  match timeout_us udp_rate with
  | Some t =>
      (18 <=? t) && (t <=? 63157)
      && (t * udp_rate <=? 1200000) && (1200000 <=? (t + 1) * udp_rate)
  | None => false
  end.

(** [p] holds at [lo], [lo + 1], ..., [lo + n - 1]. *)
Fixpoint holds_from (p : Z -> bool) (lo : Z) (n : nat) : bool :=
  match n with
  | O => true
  | S k => p lo && holds_from p (lo + 1) k
  end.

End Timeout.

(** ** Packet buffers and the wire format *)

Module Packet.

Definition byte := Byte.byte.

Definition byte_val (b : byte) : Z := Z.of_N (Byte.to_N b).

(** [std::memcpy(&sequence_number, &recv_packet_temp[0], 4)]: the first
    four bytes read as a [uint32_t] in host order. Winsock hosts are
    little-endian. The wire format gives every packet this 4-byte prefix;
    the statements below that look at a sequence number assume [4 <= N]. *)
Definition sequence_of (buf : list byte) : Z :=
  byte_val (nth 0 buf Byte.x00)
  + 2 ^ 8 * byte_val (nth 1 buf Byte.x00)
  + 2 ^ 16 * byte_val (nth 2 buf Byte.x00)
  + 2 ^ 24 * byte_val (nth 3 buf Byte.x00).

(** [recv_packet.size()] *)
Definition size (buf : list byte) : Z := Z.of_nat (length buf).

(** [T recv_packet_temp = {0};] *)
Definition zeroed (n : nat) : list byte := repeat Byte.x00 n.

End Packet.

(** ** The environment of one call: the socket and the clock *)

Module Env.

Import Packet.

(** One call of [UdpServer::recv(msg, max_size)]: the value it returned
    and the bytes it stored at the start of [msg]. *)
Record recv_result := mkRecv { ret : Z; stored : list byte }.

(** The buffer after the call: [stored] overwrites a prefix. *)
Definition recv_into (msg : list byte) (r : recv_result) : list byte :=
  stored r ++ skipn (length (stored r)) msg.

(** What [::recv] promises for a buffer of [max_size] bytes: it returns
    [-1] (nothing available, or an error) or the number of bytes stored,
    and never stores more than [max_size] bytes. *)
Definition recv_ok (max_size : Z) (r : recv_result) : Prop :=
  -1 <= ret r <= max_size
  /\ size (stored r) <= max_size
  /\ (0 <= ret r -> size (stored r) = ret r).

(** Nothing available. *)
Definition nothing : recv_result := mkRecv (-1) [].

(** A datagram of exactly these bytes was delivered. *)
Definition datagram (bytes : list byte) : recv_result :=
  mkRecv (size bytes) bytes.

(** One loop iteration as the environment sees it: the outcome of the
    [recv] on line 69 and the number of microseconds since [start] that
    the clock shows on line 94 (read only when the iteration gets there). *)
Record poll_event := mkEvent { received : recv_result; clock_us : Z }.

Definition trace := list poll_event.

Definition trace_ok (max_size : Z) (tr : trace) : Prop :=
  Forall (fun ev => recv_ok max_size (received ev)) tr.

(** A clock discipline on a trace: readings never go back, and no
    iteration takes more than [overhead] microseconds ([prev] is the
    reading before the first event; 0 at [start]). *)
Fixpoint paced (overhead prev : Z) (tr : trace) : Prop :=
  match tr with
  | [] => True
  | ev :: rest =>
      prev <= clock_us ev <= prev + overhead /\ paced overhead (clock_us ev) rest
  end.

End Env.

(** ** [UdpUtils::readUdp] *)

Module UdpUtils.

Import Width Packet Env.

(** The variables of [readUdp], named as in the source. [recv_packet] is
    the caller's buffer, passed by reference. *)
Record locals := mkLocals {
  recv_packet : list byte;
  recv_packet_temp : list byte;
  udp_error : bool;
  bytes_received : Z;            (* int16_t *)
  highest_sequence_number : Z;   (* uint32_t *)
  sequence_number : Z;           (* uint32_t *)
  elapsed_time_us : Z            (* uint16_t *)
}.

(** Lines 46-62. *)
Definition entry (caller_packet : list byte) : locals :=
  {| recv_packet := caller_packet;
     recv_packet_temp := zeroed (length caller_packet);
     udp_error := true;
     bytes_received := 0;
     highest_sequence_number := 0;
     sequence_number := 0;
     elapsed_time_us := 0 |}.

Inductive flow := Break (st : locals) | Next (st : locals).

(** Lines 69-85: the receive and the size test. The comparison on line 73
    is between an [int16_t] and a [size_t], so the left operand is
    converted to [size_t]. *)
Definition receive_step (st : locals) (r : recv_result) : locals :=
  let temp := recv_into (recv_packet_temp st) r in
  let n := to_int16 (ret r) in
  if to_size_t n =? size (recv_packet st) then
    let s := sequence_of temp in
    if s >? highest_sequence_number st then
      (* recv_packet.swap(recv_packet_temp) *)
      {| recv_packet := temp;
         recv_packet_temp := recv_packet st;
         udp_error := false;
         bytes_received := n;
         highest_sequence_number := highest_sequence_number st;
         sequence_number := s;
         elapsed_time_us := elapsed_time_us st |}
    else
      {| recv_packet := recv_packet st;
         recv_packet_temp := temp;
         udp_error := false;
         bytes_received := n;
         highest_sequence_number := highest_sequence_number st;
         sequence_number := s;
         elapsed_time_us := elapsed_time_us st |}
  else
    {| recv_packet := recv_packet st;
       recv_packet_temp := temp;
       udp_error := udp_error st;
       bytes_received := n;
       highest_sequence_number := highest_sequence_number st;
       sequence_number := sequence_number st;
       elapsed_time_us := elapsed_time_us st |}.

(** Line 95: the microsecond count is stored in a [uint16_t]. *)
Definition update_elapsed (st : locals) (clock : Z) : locals :=
  {| recv_packet := recv_packet st;
     recv_packet_temp := recv_packet_temp st;
     udp_error := udp_error st;
     bytes_received := bytes_received st;
     highest_sequence_number := highest_sequence_number st;
     sequence_number := sequence_number st;
     elapsed_time_us := to_uint16 clock |}.

(** The loop body, lines 68-95. *)
Definition iteration (st : locals) (ev : poll_event) : flow :=
  let st1 := receive_step st (received ev) in
  if negb (udp_error st1) && (bytes_received st1 =? -1) then Break st1
  else Next (update_elapsed st1 (clock_us ev)).

(** How a call stands once the environment's trace has been played:
    it has returned (leaving the rest of the trace unread), or it is still
    in the loop, about to call [recv] again. *)
Inductive outcome :=
| Returned (st : locals) (unread : trace)
| Polling (st : locals).

(** [while (elapsed_time_us < timeout_us) { ... }], lines 66-96. *)
Fixpoint poll (timeout_us : Z) (st : locals) (tr : trace) : outcome :=
  if elapsed_time_us st <? timeout_us then
    match tr with
    | [] => Polling st
    | ev :: rest =>
        match iteration st ev with
        | Break st' => Returned st' rest
        | Next st' => poll timeout_us st' rest
        end
    end
  else Returned st tr.

(** The whole function. [None]: the conversion on line 63 is undefined
    for this rate. *)
Definition readUdp (caller_packet : list byte) (udp_rate : Z) (tr : trace)
  : option outcome :=
  match Timeout.timeout_us udp_rate with
  | Some t => Some (poll t (entry caller_packet) tr)
  | None => None
  end.

(** The events a call has read from the trace, in order. *)
Fixpoint polled (timeout_us : Z) (st : locals) (tr : trace) : trace :=
  if elapsed_time_us st <? timeout_us then
    match tr with
    | [] => []
    | ev :: rest =>
        ev :: match iteration st ev with
              | Break _ => []
              | Next st' => polled timeout_us st' rest
              end
    end
  else [].

(** What the loop body does to the caller's buffer, read off one event:
    a datagram of the agreed length [n] whose sequence number is not 0
    replaces what was kept. *)
Definition keep_fresh (n : Z) (kept : list byte) (ev : poll_event) : list byte :=
  if (ret (received ev) =? n) && (sequence_of (stored (received ev)) >? 0)
  then stored (received ev) else kept.

(** The last datagram of the agreed length with a non-zero sequence number
    among the events read, or the caller's packet when there is none. *)
Definition last_nonzero (caller_packet : list byte) (read : trace) : list byte :=
  fold_left (keep_fresh (size caller_packet)) read caller_packet.

(** Both buffers have the agreed length. *)
Definition sized (n : Z) (st : locals) : Prop :=
  size (recv_packet st) = n /\ size (recv_packet_temp st) = n.

(** What the caller gets back. *)
Definition final (o : outcome) : locals :=
  match o with Returned st _ => st | Polling st => st end.

Definition has_returned (o : outcome) : bool :=
  match o with Returned _ _ => true | Polling _ => false end.

Definition unread (o : outcome) : trace :=
  match o with Returned _ u => u | Polling _ => [] end.

End UdpUtils.

(** ** The receiver as the specification words it (section 4.2, step 3b)

    "If this sequence number is strictly greater than [highestSeqSeen],
    replace the caller's scratch buffer contents with the temporary buffer's
    contents and update [highestSeqSeen] to this value." Used only to
    compare with [UdpUtils.receive_step]. *)

Module SpecReceiver.

Import Packet Env.

Record spec_state := mkSpec {
  scratch : list byte;
  highestSeqSeen : Z;
  errorFlag : bool
}.

Definition spec_entry (caller_packet : list byte) : spec_state :=
  mkSpec caller_packet 0 true.

Definition spec_step (st : spec_state) (r : recv_result) : spec_state :=
  if ret r =? size (scratch st) then
    if sequence_of (stored r) >? highestSeqSeen st
    then mkSpec (stored r) (sequence_of (stored r)) false
    else mkSpec (scratch st) (highestSeqSeen st) false
  else st.

(** The packets a window delivers, in arrival order, folded by step 3b. *)
Definition spec_retained (caller_packet : list byte) (arrivals : list recv_result)
  : spec_state :=
  fold_left spec_step arrivals (spec_entry caller_packet).

End SpecReceiver.

(** ** The endpoint constructors (udp_client_server.cpp)

    The constructors run against the operating system; what matters to the
    caller of a failed construction is which resources the process still
    holds. The system calls are modelled by their effect on a ledger of held
    resources, their results by an oracle. *)

Module Endpoint.

(** Resources held by the process. *)
Record ledger := mkLedger {
  winsock_refs : nat;      (* successful WSAStartup calls not yet cleaned up *)
  addrinfo_held : nat;     (* address lists from getaddrinfo not yet freed *)
  sockets_open : nat       (* sockets not yet closed *)
}.

(** What the system answers to each call the constructor makes. *)
Record system := mkSystem {
  WSAStartup_result : Z;       (* 0 on success *)
  getaddrinfo_r : Z;           (* 0 on success *)
  getaddrinfo_null : bool;     (* the result pointer is NULL *)
  socket_invalid : bool;       (* socket() returned INVALID_SOCKET *)
  ioctlsocket_r : Z;           (* 0 on success *)
  bind_r : Z                   (* 0 on success *)
}.

(** The four places a constructor throws [UdpClientServerRuntimeError]. *)
Inductive UdpClientServerRuntimeError :=
| invalid_address_or_port
| could_not_create_socket
| failed_to_set_non_blocking
| could_not_bind.

Inductive result (A : Type) :=
| Done (a : A)
| Thrown (e : UdpClientServerRuntimeError).

Arguments Done {A} a.
Arguments Thrown {A} e.

(** Computations over the ledger that may throw. An exception that leaves
    a constructor does not run the destructor of the object under
    construction, so whatever the ledger holds at the throw stays held. *)
Definition M (A : Type) : Type := ledger -> result A * ledger.

Definition pure {A} (a : A) : M A := fun l => (Done a, l).

Definition throw {A} (e : UdpClientServerRuntimeError) : M A :=
  fun l => (Thrown e, l).

Definition bind {A B} (m : M A) (k : A -> M B) : M B :=
  fun l =>
    match m l with
    | (Done a, l') => k a l'
    | (Thrown e, l') => (Thrown e, l')
    end.

Notation "x <- m ;; k" := (bind m (fun x => k))
  (at level 61, m at next level, right associativity).
Notation "m ;;; k" := (bind m (fun _ => k))
  (at level 61, right associativity).

(** *** System calls *)

Definition WSAStartup (sys : system) : M Z :=
  fun l =>
    if WSAStartup_result sys =? 0
    then (Done 0, mkLedger (S (winsock_refs l)) (addrinfo_held l) (sockets_open l))
    else (Done (WSAStartup_result sys), l).

Definition WSACleanup : M unit :=
  fun l => (Done tt, mkLedger (Nat.pred (winsock_refs l)) (addrinfo_held l) (sockets_open l)).

(** Returns [r] and whether [f_addrinfo_] is NULL afterwards; a successful
    call allocates the address list. *)
Definition getaddrinfo (sys : system) : M (Z * bool) :=
  fun l =>
    if (getaddrinfo_r sys =? 0) && negb (getaddrinfo_null sys)
    then (Done (0, false),
          mkLedger (winsock_refs l) (S (addrinfo_held l)) (sockets_open l))
    else (Done (getaddrinfo_r sys, getaddrinfo_null sys), l).

Definition freeaddrinfo : M unit :=
  fun l => (Done tt, mkLedger (winsock_refs l) (Nat.pred (addrinfo_held l)) (sockets_open l)).

(** Returns whether the handle is [INVALID_SOCKET]. *)
Definition socket (sys : system) : M bool :=
  fun l =>
    if socket_invalid sys then (Done true, l)
    else (Done false,
          mkLedger (winsock_refs l) (addrinfo_held l) (S (sockets_open l))).

Definition closesocket : M unit :=
  fun l => (Done tt, mkLedger (winsock_refs l) (addrinfo_held l) (Nat.pred (sockets_open l))).

Definition ioctlsocket (sys : system) : M Z :=
  fun l => (Done (ioctlsocket_r sys), l).

Definition bind_socket (sys : system) : M Z :=
  fun l => (Done (bind_r sys), l).

(** Lines 68-75 and 226-233. *)
Definition initialize_winsock (sys : system) : M unit :=
  result <- WSAStartup sys ;;
  if negb (result =? 0) then WSACleanup else pure tt.

(** [UdpClient::UdpClient], lines 63-105. *)
Definition UdpClient (sys : system) : M unit :=
  initialize_winsock sys ;;;
  a <- getaddrinfo sys ;;
  if negb (fst a =? 0) || snd a then
    throw invalid_address_or_port
  else
    invalid <- socket sys ;;
    if (invalid : bool) then
      freeaddrinfo ;;; WSACleanup ;;; throw could_not_create_socket
    else
      r <- ioctlsocket sys ;;
      if negb (r =? 0) then
        WSACleanup ;;; throw failed_to_set_non_blocking
      else pure tt.

(** [UdpServer::UdpServer], lines 222-272. *)
Definition UdpServer (sys : system) : M unit :=
  initialize_winsock sys ;;;
  a <- getaddrinfo sys ;;
  if negb (fst a =? 0) || snd a then
    WSACleanup ;;; throw invalid_address_or_port
  else
    invalid <- socket sys ;;
    if (invalid : bool) then
      freeaddrinfo ;;; WSACleanup ;;; throw could_not_create_socket
    else
      r <- ioctlsocket sys ;;
      if negb (r =? 0) then
        WSACleanup ;;; throw failed_to_set_non_blocking
      else
        r <- bind_socket sys ;;
        if negb (r =? 0) then
          freeaddrinfo ;;; closesocket ;;; WSACleanup ;;; throw could_not_bind
        else pure tt.

(** A process that holds nothing yet. *)
Definition nothing_held : ledger := mkLedger 0 0 0.

(** A failed construction holds on to an address list or a socket it
    acquired. *)
Definition leaks (before after : ledger) : bool :=
  (addrinfo_held before <? addrinfo_held after)%nat
  || (sockets_open before <? sockets_open after)%nat.

(** The held address lists and sockets, the two resources a constructor
    acquires for itself, are what they were. *)
Definition same_holdings (before after : ledger) : Prop :=
  addrinfo_held after = addrinfo_held before
  /\ sockets_open after = sockets_open before.

(** A system on which every call succeeds except [ioctlsocket]. *)
Definition non_blocking_refused : system :=
  {| WSAStartup_result := 0; getaddrinfo_r := 0; getaddrinfo_null := false;
     socket_invalid := false; ioctlsocket_r := -1; bind_r := 0 |}.

End Endpoint.

(** ** Concrete packets and traces (section 8 of the specification) *)

Module Scenario.

Import Byte Packet Env.

(** The caller's buffer at entry: eight bytes left from an earlier cycle. *)
Definition stale : list byte := [xee; xee; xee; xee; xee; xee; xee; xee].

(** Eight-byte packets: sequence number, then four payload bytes. *)
Definition P5 : list byte := [x05; x00; x00; x00; x50; x51; x52; x53].
Definition P3 : list byte := [x03; x00; x00; x00; x30; x31; x32; x33].
Definition P0 : list byte := [x00; x00; x00; x00; x10; x11; x12; x13].

(** A second packet numbered 5 whose payload differs from [P5]'s, so that
    the two copies can be told apart in the caller's buffer. *)
Definition P5_again : list byte := [x05; x00; x00; x00; x60; x61; x62; x63].

(** [P5] cut one byte short. *)
Definition P5_short : list byte := [x05; x00; x00; x00; x50; x51; x52].

(** An iteration that receives [r] and ends when the clock shows [c]. *)
Definition at_us (c : Z) (r : recv_result) : poll_event := mkEvent r c.

(** [n] iterations that receive nothing; the first ends at [first]
    microseconds and each later one [step] microseconds after the one
    before. *)
Fixpoint quiet (first step : Z) (n : nat) : trace :=
  match n with
  | O => []
  | S k => at_us first nothing :: quiet (first + step) step k
  end.

(** A channel whose agreed packet length is 32768 bytes. *)
Definition big : nat := Z.to_nat 32768.
Definition big_stale : list byte := repeat xee big.
Definition big_packet : list byte := x01 :: repeat x00 (Nat.pred big).

End Scenario.

(** ** Arrival in order

    The situation in which the receiver's retention can be compared with
    step 3b of the specification: among the datagrams of the agreed length
    [n], every sequence number exceeds the one before it, and the first
    exceeds [floor]. *)

Module Arrival.

Import Packet Env.

Fixpoint ascending (n floor : Z) (tr : trace) : Prop :=
  match tr with
  | [] => True
  | ev :: rest =>
      if ret (received ev) =? n
      then floor < sequence_of (stored (received ev))
           /\ ascending n (sequence_of (stored (received ev))) rest
      else ascending n floor rest
  end.

End Arrival.

(** ** The life of an endpoint after construction (udp_client_server.cpp) *)

Module EndpointLife.

Import Endpoint.

(** [UdpClient::~UdpClient], lines 112-117, and [UdpServer::~UdpServer],
    lines 278-283: the two bodies are the same. *)
Definition destroy : M unit :=
  freeaddrinfo ;;; closesocket ;;; WSACleanup.

(** An object that is constructed and then goes out of scope. Only a fully
    constructed object is destroyed. *)
Definition scoped (construct : M unit) : M unit :=
  construct ;;; destroy.

(** [UdpExample::UdpExample] (udp_example.cpp, lines 54-58). The members
    are initialised in the order of their declaration (lines 124 and 127):
    [udp_send_], a [UdpClient], before [udp_recv_], a [UdpServer], although
    the initialiser list names them the other way round. When the second
    constructor throws, the first member, fully constructed, is destroyed
    before the exception leaves. *)
Definition UdpExample (sys_send sys_recv : system) : M unit :=
  fun l =>
    match UdpClient sys_send l with
    | (Done _, l1) =>
        match UdpServer sys_recv l1 with
        | (Done _, l2) => (Done tt, l2)
        | (Thrown e, l2) => (Thrown e, snd (destroy l2))
        end
    | (Thrown e, l1) => (Thrown e, l1)
    end.

(** [UdpExample::~UdpExample] (defaulted): the members are destroyed in the
    reverse order of their declaration. *)
Definition destroy_UdpExample : M unit :=
  destroy ;;; destroy.

(** A system on which every call succeeds. *)
Definition all_succeed : system :=
  {| WSAStartup_result := 0; getaddrinfo_r := 0; getaddrinfo_null := false;
     socket_invalid := false; ioctlsocket_r := 0; bind_r := 0 |}.

(** A system on which the port is taken: every call succeeds except
    [bind]. *)
Definition port_taken : system :=
  {| WSAStartup_result := 0; getaddrinfo_r := 0; getaddrinfo_null := false;
     socket_invalid := false; ioctlsocket_r := 0; bind_r := -1 |}.

(** A system on which the address does not resolve. *)
Definition unresolved : system :=
  {| WSAStartup_result := 0; getaddrinfo_r := 11001; getaddrinfo_null := true;
     socket_invalid := false; ioctlsocket_r := 0; bind_r := 0 |}.

(** The same system with another answer to [bind]. *)
Definition with_bind (r : Z) (sys : system) : system :=
  {| WSAStartup_result := WSAStartup_result sys;
     getaddrinfo_r := getaddrinfo_r sys;
     getaddrinfo_null := getaddrinfo_null sys;
     socket_invalid := socket_invalid sys;
     ioctlsocket_r := ioctlsocket_r sys;
     bind_r := r |}.

(** Every step a constructor checks has succeeded. *)
Definition client_steps_ok (sys : system) : bool :=
  (getaddrinfo_r sys =? 0) && negb (getaddrinfo_null sys)
  && negb (socket_invalid sys) && (ioctlsocket_r sys =? 0).

Definition server_steps_ok (sys : system) : bool :=
  client_steps_ok sys && (bind_r sys =? 0).

End EndpointLife.

(** ** The example application (udp_example.cpp)

    [UdpExample] sends and receives two floats per packet. A [float] is
    handled only through [std::memcpy] and assignment, so it is modelled by
    its object representation, four bytes. The values [rand()] yields,
    converted to [float], are inputs. The loop counters are [uint8_t]. *)

Module Example.

Import Packet Env UdpUtils.

Definition to_uint8 (z : Z) : Z := z mod 256.

(** [sizeof(float)] *)
Definition sizeof_float : Z := 4.

(** [static constexpr uint16_t UDP_RATE = 200;] *)
Definition UDP_RATE : Z := 200.

(** [static constexpr uint8_t NUM_FLOATS = 2;] *)
Definition NUM_FLOATS : Z := 2.

(** [static const uint8_t PACKET_SIZE = sizeof(float)*NUM_FLOATS;] *)
Definition PACKET_SIZE : Z := to_uint8 (sizeof_float * NUM_FLOATS).

(** The object representation of a [float]. *)
Definition float32 : Type := (byte * byte * byte * byte)%type.

Definition bytes_of (f : float32) : list byte :=
  let '(a, b, c, d) := f in [a; b; c; d].

(** The members of [UdpExample] that hold data (lines 130-139). *)
Record members := mkMembers {
  receive_packet_ : list byte;     (* std::array<char, PACKET_SIZE> *)
  send_packet_ : list byte;        (* std::array<char, PACKET_SIZE> *)
  send_data_ : list float32;       (* std::array<float, NUM_FLOATS> *)
  receive_data_ : list float32     (* std::array<float, NUM_FLOATS> *)
}.

(** The arrays have the lengths their types give them. *)
Definition well_sized (m : members) : Prop :=
  size (receive_packet_ m) = PACKET_SIZE
  /\ size (send_packet_ m) = PACKET_SIZE
  /\ Z.of_nat (length (send_data_ m)) = NUM_FLOATS
  /\ Z.of_nat (length (receive_data_ m)) = NUM_FLOATS.

(** How a loop over an array ends: normally, by an access outside an
    array, or not within the number of iterations allowed. *)
Inductive run (A : Type) :=
| Finished (a : A)
| OutOfBounds
| StillRunning.

Arguments Finished {A} a.
Arguments OutOfBounds {A}.
Arguments StillRunning {A}.

(** [std::memcpy(&temp, &buf[i], sizeof(temp))] *)
Definition load_float (i : nat) (buf : list byte) : option float32 :=
  match skipn i buf with
  | a :: b :: c :: d :: _ => Some (a, b, c, d)
  | _ => None
  end.

(** [std::memcpy(&buf[j], &f, sizeof(f))] *)
Definition store_float (j : nat) (f : float32) (buf : list byte)
  : option (list byte) :=
  if (j + 4 <=? length buf)%nat
  then Some (firstn j buf ++ bytes_of f ++ skipn (j + 4) buf)
  else None.

(** [arr[j] = x] *)
Definition store_at {A} (j : nat) (x : A) (arr : list A) : option (list A) :=
  if (j <? length arr)%nat
  then Some (firstn j arr ++ x :: skipn (S j) arr)
  else None.

(** The loop of [sendUDP], lines 110-117:
    [for (uint8_t i = 0; i < send_data_.size(); ++i)
       { memcpy(&send_packet_[j], &send_data_[i], sizeof(float));
         j += sizeof(float); }] *)
Fixpoint pack_loop (fuel : nat) (i j : Z) (data : list float32)
    (packet : list byte) : run (list byte) :=
  match fuel with
  | O => StillRunning
  | S k =>
      if i <? Z.of_nat (length data) then
        match nth_error data (Z.to_nat i) with
        | Some f =>
            match store_float (Z.to_nat j) f packet with
            | Some packet' =>
                pack_loop k (to_uint8 (i + 1)) (to_uint8 (j + sizeof_float))
                  data packet'
            | None => OutOfBounds
            end
        | None => OutOfBounds
        end
      else Finished packet
  end.

(** The loop of [readUDP], lines 77-87:
    [for (uint8_t i = 0; i < receive_packet_.size(); i += sizeof(float))
       { memcpy(&temp, &receive_packet_[i], sizeof(temp));
         receive_data_[j] = temp; ++j; }] *)
Fixpoint unpack_loop (fuel : nat) (i j : Z) (packet : list byte)
    (data : list float32) : run (list float32) :=
  match fuel with
  | O => StillRunning
  | S k =>
      if i <? size packet then
        match load_float (Z.to_nat i) packet with
        | Some temp =>
            match store_at (Z.to_nat j) temp data with
            | Some data' =>
                unpack_loop k (to_uint8 (i + sizeof_float)) (to_uint8 (j + 1))
                  packet data'
            | None => OutOfBounds
            end
        | None => OutOfBounds
        end
      else Finished data
  end.

(** [UdpExample::sendUDP], lines 100-121. [r0] and [r1] are the two values
    of [rand()] as floats. The result is the object afterwards and the
    datagram handed to [udp_send_.send]. *)
Definition sendUDP (fuel : nat) (r0 r1 : float32) (m : members)
  : run (members * list byte) :=
  match store_at 0 r0 (send_data_ m) with
  | None => OutOfBounds
  | Some d0 =>
      match store_at 1 r1 d0 with
      | None => OutOfBounds
      | Some d1 =>
          match pack_loop fuel 0 0 d1 (send_packet_ m) with
          | Finished packet =>
              Finished
                ({| receive_packet_ := receive_packet_ m;
                    send_packet_ := packet;
                    send_data_ := d1;
                    receive_data_ := receive_data_ m |},
                 firstn (Z.to_nat PACKET_SIZE) packet)
          | OutOfBounds => OutOfBounds
          | StillRunning => StillRunning
          end
      end
  end.

(** What [readUDP] prints. *)
Inductive printed :=
| Message_Received (first second : float32)
| UDP_Timeout.

(** [UdpExample::readUDP], lines 68-95, run against the trace of one call
    of [readUdp]. [StillRunning] also covers a [readUdp] that has not
    returned within the trace. *)
Definition readUDP (fuel : nat) (tr : trace) (m : members)
  : run (members * printed) :=
  match readUdp (receive_packet_ m) UDP_RATE tr with
  | Some (Returned st _) =>
      if negb (udp_error st) then
        match unpack_loop fuel 0 0 (recv_packet st) (receive_data_ m) with
        | Finished data =>
            match data with
            | first :: second :: _ =>
                Finished
                  ({| receive_packet_ := recv_packet st;
                      send_packet_ := send_packet_ m;
                      send_data_ := send_data_ m;
                      receive_data_ := data |},
                   Message_Received first second)
            | _ => OutOfBounds
            end
        | OutOfBounds => OutOfBounds
        | StillRunning => StillRunning
        end
      else
        Finished
          ({| receive_packet_ := recv_packet st;
              send_packet_ := send_packet_ m;
              send_data_ := send_data_ m;
              receive_data_ := receive_data_ m |},
           UDP_Timeout)
  | Some (Polling _) => StillRunning
  | None => StillRunning
  end.

(** The floats a packet holds, four bytes each. *)
Definition floats_in (packet : list byte) : option (float32 * float32) :=
  match load_float 0 packet, load_float 4 packet with
  | Some a, Some b => Some (a, b)
  | _, _ => None
  end.

(** Concrete floats: 1.0f, 2.0f and +0.0f on a little-endian host. *)
Definition one_f : float32 := (Byte.x00, Byte.x00, Byte.x80, Byte.x3f).
Definition two_f : float32 := (Byte.x00, Byte.x00, Byte.x00, Byte.x40).
Definition zero_f : float32 := (Byte.x00, Byte.x00, Byte.x00, Byte.x00).

(** An object whose arrays hold bytes and floats from earlier use. *)
Definition used : members :=
  {| receive_packet_ := bytes_of two_f ++ bytes_of one_f;
     send_packet_ := repeat Byte.xee 8;
     send_data_ := [zero_f; zero_f];
     receive_data_ := [zero_f; zero_f] |}.

End Example.

(** * Properties *)

(** ** Integer conversions *)

Module WidthFacts.

Import Width.

Lemma to_int16_small z : -32768 <= z <= 32767 -> to_int16 z = z.
Proof.
  intros Hz. unfold to_int16.
  rewrite Z.mod_small by lia. lia.
Qed.

Lemma to_int16_range z : -32768 <= to_int16 z <= 32767.
Proof.
  unfold to_int16.
  pose proof (Z.mod_pos_bound (z + 32768) 65536 ltac:(lia)). lia.
Qed.

(** The conversion changes a value by a multiple of 2^16. *)
Lemma to_int16_wraps z : exists k, to_int16 z = z - 65536 * k.
Proof.
  exists ((z + 32768) / 65536). unfold to_int16.
  rewrite (Z.mod_eq (z + 32768) 65536) by lia. lia.
Qed.

Lemma to_size_t_nonneg z : 0 <= z < 2 ^ 64 -> to_size_t z = z.
Proof. intros Hz. unfold to_size_t. now rewrite Z.mod_small. Qed.

Lemma to_size_t_neg z : - 2 ^ 64 <= z < 0 -> to_size_t z = z + 2 ^ 64.
Proof.
  intros Hz. unfold to_size_t.
  symmetry. apply Z.mod_unique with (q := -1); lia.
Qed.

Lemma to_uint16_small z : 0 <= z < 65536 -> to_uint16 z = z.
Proof. intros Hz. unfold to_uint16. now rewrite Z.mod_small. Qed.

(** Line 73, [bytes_received == recv_packet.size()], for a result [r] of
    [recv] on a buffer of [n] bytes: the test passes exactly when [r = n]
    and [n] fits an [int16_t]. *)
Lemma size_test_iff n r :
  0 <= n <= INT_MAX -> -1 <= r <= n ->
  (to_size_t (to_int16 r) =? n) = true <-> r = n /\ n <= 32767.
Proof.
  unfold INT_MAX. intros Hn Hr. rewrite Z.eqb_eq.
  pose proof (to_int16_range r) as Hrange.
  destruct (to_int16_wraps r) as [k Hk].
  split.
  - intros Heq.
    destruct (Z_lt_le_dec (to_int16 r) 0) as [Hneg | Hpos].
    + rewrite to_size_t_neg in Heq by lia. lia.
    + rewrite to_size_t_nonneg in Heq by lia. lia.
  - intros [-> Hsmall].
    rewrite to_int16_small by lia.
    apply to_size_t_nonneg. lia.
Qed.

End WidthFacts.

(** ** The timeout window *)

Module TimeoutFacts.

Import Timeout.

Lemma holds_from_spec p n : forall lo z,
  holds_from p lo n = true -> lo <= z < lo + Z.of_nat n -> p z = true.
Proof.
  induction n as [| k IH]; intros lo z Hall Hz.
  - simpl in Hz. lia.
  - simpl in Hall. apply andb_true_iff in Hall as [Hlo Hrest].
    destruct (Z.eq_dec z lo) as [-> | Hne]; [exact Hlo |].
    apply (IH (lo + 1)); [exact Hrest | lia].
Qed.

(** Every rate from 19 to 65535 Hz, checked by evaluation. *)
Lemma window_brackets_all :
  holds_from window_brackets 19 (Z.to_nat 65517) = true.
Proof. vm_compute. reflexivity. Qed.

Lemma timeout_us_in_range udp_rate :
  19 <= udp_rate <= 65535 ->
  exists t, timeout_us udp_rate = Some t
            /\ 18 <= t <= 63157
            /\ t * udp_rate <= 1200000 <= (t + 1) * udp_rate.
Proof.
  intros Hr.
  assert (Hok : window_brackets udp_rate = true).
  { apply (holds_from_spec _ _ 19 udp_rate window_brackets_all).
    rewrite Z2Nat.id; lia. }
  unfold window_brackets in Hok.
  destruct (timeout_us udp_rate) as [t |]; [| discriminate].
  exists t. repeat rewrite andb_true_iff in Hok.
  repeat rewrite Z.leb_le in Hok. intuition.
Qed.

Lemma spec_window_lower t udp_rate :
  0 < udp_rate -> t * udp_rate <= 1200000 ->
  (inject_Z t <= spec_window udp_rate)%Q.
Proof.
  intros Hr Hle. destruct udp_rate as [| p | p]; try lia.
  unfold spec_window, Qle. cbn. lia.
Qed.

Lemma spec_window_upper t udp_rate :
  0 < udp_rate -> 1200000 <= (t + 1) * udp_rate ->
  (spec_window udp_rate <= inject_Z t + 1)%Q.
Proof.
  intros Hr Hle. destruct udp_rate as [| p | p]; try lia.
  unfold spec_window, Qle. cbn. lia.
Qed.

End TimeoutFacts.

(** ** The receive loop *)

Module ReadUdpFacts.

Import Width Packet Env UdpUtils WidthFacts.

Lemma size_nonneg (buf : list byte) : 0 <= size buf.
Proof. unfold size. lia. Qed.

Lemma recv_into_size msg r :
  size (stored r) <= size msg -> size (recv_into msg r) = size msg.
Proof.
  unfold recv_into, size. intros Hle.
  rewrite length_app, length_skipn. lia.
Qed.

Lemma recv_into_full msg r :
  size (stored r) = size msg -> recv_into msg r = stored r.
Proof.
  unfold recv_into, size. intros Heq.
  rewrite skipn_all2 by lia. apply app_nil_r.
Qed.

Lemma entry_sized caller_packet : sized (size caller_packet) (entry caller_packet).
Proof.
  split; [reflexivity |].
  unfold entry, zeroed, size. simpl. now rewrite repeat_length.
Qed.

(** The source never assigns [highest_sequence_number]. *)
Lemma receive_step_highest st r :
  highest_sequence_number (receive_step st r) = highest_sequence_number st.
Proof.
  unfold receive_step.
  destruct (_ =? _); [destruct (_ >? _) |]; reflexivity.
Qed.

Lemma receive_step_elapsed st r :
  elapsed_time_us (receive_step st r) = elapsed_time_us st.
Proof.
  unfold receive_step.
  destruct (_ =? _); [destruct (_ >? _) |]; reflexivity.
Qed.

Lemma receive_step_bytes st r :
  bytes_received (receive_step st r) = to_int16 (ret r).
Proof.
  unfold receive_step.
  destruct (_ =? _); [destruct (_ >? _) |]; reflexivity.
Qed.

Lemma receive_step_sized n st r :
  sized n st -> recv_ok n r -> sized n (receive_step st r).
Proof.
  intros [Hp Ht] (_ & Hlen & _).
  assert (size (recv_into (recv_packet_temp st) r) = n) as Hinto.
  { rewrite recv_into_size; lia. }
  unfold receive_step, sized.
  destruct (_ =? _); [destruct (_ >? _) |]; simpl; auto.
Qed.

(** A result that fails the test on line 73: the caller's buffer and the
    flag stay as they are. *)
Lemma receive_step_fails_test st r :
  size (recv_packet st) <= INT_MAX ->
  recv_ok (size (recv_packet st)) r ->
  ~ (ret r = size (recv_packet st) /\ size (recv_packet st) <= 32767) ->
  recv_packet (receive_step st r) = recv_packet st
  /\ udp_error (receive_step st r) = udp_error st.
Proof.
  intros Hmax (Hret & _) Hne.
  pose proof (size_nonneg (recv_packet st)) as Hpos.
  unfold receive_step.
  destruct (_ =? _) eqn:Htest; [| split; reflexivity].
  apply size_test_iff in Htest; [| lia | lia]. tauto.
Qed.

(** A result of another length than the agreed one: the caller's buffer
    and the flag stay as they are. *)
Lemma receive_step_rejects st r :
  size (recv_packet st) <= INT_MAX ->
  recv_ok (size (recv_packet st)) r ->
  ret r <> size (recv_packet st) ->
  recv_packet (receive_step st r) = recv_packet st
  /\ udp_error (receive_step st r) = udp_error st.
Proof.
  intros Hmax Hok Hne. apply receive_step_fails_test; tauto.
Qed.

(** A result of the agreed length on a channel whose length fits an
    [int16_t]: the flag is cleared, and the datagram is swapped in exactly
    when its sequence number exceeds [highest_sequence_number]. *)
Lemma receive_step_accepts st r :
  sized (ret r) st -> ret r <= 32767 -> size (stored r) = ret r ->
  udp_error (receive_step st r) = false
  /\ recv_packet (receive_step st r)
     = if sequence_of (stored r) >? highest_sequence_number st
       then stored r else recv_packet st.
Proof.
  intros [Hp Ht] Hsmall Hlen.
  pose proof (size_nonneg (recv_packet st)) as Hpos.
  unfold receive_step.
  rewrite recv_into_full by lia.
  destruct (_ =? _) eqn:Htest.
  - destruct (_ >? _); split; reflexivity.
  - exfalso. apply not_true_iff_false in Htest. apply Htest.
    apply size_test_iff; unfold INT_MAX; lia.
Qed.

(** Whatever [recv] did, the caller's buffer afterwards is what it was or
    the bytes of a datagram of the agreed length: bytes stored by a rejected
    result never reach it. *)
Lemma receive_step_buffer_cases n st r :
  sized n st -> n <= INT_MAX -> recv_ok n r ->
  recv_packet (receive_step st r) = recv_packet st
  \/ (ret r = n /\ recv_packet (receive_step st r) = stored r).
Proof.
  intros Hsized Hmax Hok.
  pose proof Hsized as [Hp _].
  pose proof (size_nonneg (recv_packet st)) as Hpos.
  destruct (Z.eq_dec (ret r) n) as [Heq | Hne].
  - destruct (Z_le_gt_dec n 32767) as [Hsmall | Hlarge].
    + destruct (receive_step_accepts st r) as [_ Hbuf].
      * now rewrite Heq.
      * lia.
      * destruct Hok as (_ & _ & Hlen). apply Hlen. lia.
      * rewrite Hbuf. destruct (_ >? _); auto.
    + left. subst n. apply receive_step_fails_test; auto. lia.
  - left. subst n. apply receive_step_rejects; auto.
Qed.

(** The flag is only ever cleared. *)
Lemma receive_step_flag_stays_clear st r :
  udp_error st = false -> udp_error (receive_step st r) = false.
Proof.
  intros Hclear. unfold receive_step.
  destruct (_ =? _); [destruct (_ >? _) |]; simpl; auto.
Qed.

(** An iteration leaves the loop early only with the flag cleared and
    [bytes_received] at -1. *)
Lemma iteration_cases st ev :
  let st1 := receive_step st (received ev) in
  (iteration st ev = Break st1
   /\ udp_error st1 = false /\ to_int16 (ret (received ev)) = -1)
  \/ (iteration st ev = Next (update_elapsed st1 (clock_us ev))
      /\ (udp_error st1 = true \/ to_int16 (ret (received ev)) <> -1)).
Proof.
  intros st1. unfold iteration. fold st1.
  assert (bytes_received st1 = to_int16 (ret (received ev))) as Hb
    by apply receive_step_bytes.
  destruct (udp_error st1); simpl.
  - right. auto.
  - destruct (bytes_received st1 =? -1) eqn:Hm.
    + left. apply Z.eqb_eq in Hm. split; [reflexivity | split; [reflexivity | lia]].
    + right. apply Z.eqb_neq in Hm. split; [reflexivity | right; lia].
Qed.

Lemma receive_step_flag_iff n st r :
  sized n st -> n <= 32767 -> recv_ok n r ->
  udp_error (receive_step st r) = false
  <-> udp_error st = false \/ ret r = n.
Proof.
  intros Hsized Hsmall Hok.
  destruct (Z.eq_dec (ret r) n) as [Heq | Hne].
  - destruct (receive_step_accepts st r) as [Hflag _].
    + now rewrite Heq.
    + lia.
    + destruct Hok as (_ & _ & Hlen). apply Hlen.
      destruct Hsized as [Hp _]. pose proof (size_nonneg (recv_packet st)). lia.
    + tauto.
  - destruct Hsized as [Hp _]. subst n.
    destruct (receive_step_rejects st r) as [_ Hkeep]; auto.
    { unfold INT_MAX. lia. }
    rewrite Hkeep. tauto.
Qed.

(** *** The loop *)

Section Loop.

(** The window, [timeout_us]. *)
Variable t : Z.

Lemma poll_expired st tr :
  t <= elapsed_time_us st -> poll t st tr = Returned st tr.
Proof.
  intros Hle. apply Z.ltb_ge in Hle.
  destruct tr; simpl; now rewrite Hle.
Qed.

Lemma poll_step st ev rest :
  elapsed_time_us st < t ->
  poll t st (ev :: rest)
  = match iteration st ev with
    | Break st' => Returned st' rest
    | Next st' => poll t st' rest
    end.
Proof. intros Hlt. apply Z.ltb_lt in Hlt. simpl. now rewrite Hlt. Qed.

Lemma polled_expired st tr :
  t <= elapsed_time_us st -> polled t st tr = [].
Proof.
  intros Hle. apply Z.ltb_ge in Hle.
  destruct tr; simpl; now rewrite Hle.
Qed.

Lemma polled_step st ev rest :
  elapsed_time_us st < t ->
  polled t st (ev :: rest)
  = ev :: match iteration st ev with
          | Break _ => []
          | Next st' => polled t st' rest
          end.
Proof. intros Hlt. apply Z.ltb_lt in Hlt. simpl. now rewrite Hlt. Qed.

Lemma poll_polling_elapsed : forall tr st st',
  poll t st tr = Polling st' -> elapsed_time_us st' < t.
Proof.
  induction tr as [| ev rest IH]; intros st st' Hrun; simpl in Hrun;
    destruct (elapsed_time_us st <? t) eqn:Hlt; try discriminate.
  - injection Hrun as <-. now apply Z.ltb_lt.
  - destruct (iteration st ev); [discriminate | eauto].
Qed.

(** Playing a trace in two parts. *)
Lemma poll_app : forall pre st tr,
  poll t st (pre ++ tr)
  = match poll t st pre with
    | Polling st' => poll t st' tr
    | Returned st' u => Returned st' (u ++ tr)
    end.
Proof.
  induction pre as [| ev rest IH]; intros st tr.
  - simpl. destruct (elapsed_time_us st <? t) eqn:Hlt; [reflexivity |].
    apply poll_expired. now apply Z.ltb_ge.
  - simpl. destruct (elapsed_time_us st <? t); [| reflexivity].
    destruct (iteration st ev); [reflexivity | apply IH].
Qed.

(** The trace is what the call read followed by what it left unread. *)
Lemma polled_unread : forall tr st,
  tr = polled t st tr ++ unread (poll t st tr).
Proof.
  induction tr as [| ev rest IH]; intros st; simpl;
    destruct (elapsed_time_us st <? t); try reflexivity.
  destruct (iteration st ev); simpl; [reflexivity | f_equal; apply IH].
Qed.

(** [highest_sequence_number] is 0 at entry and stays 0. *)
Lemma poll_highest_unchanged : forall tr st,
  highest_sequence_number (final (poll t st tr)) = highest_sequence_number st.
Proof.
  induction tr as [| ev rest IH]; intros st; simpl;
    destruct (elapsed_time_us st <? t); try reflexivity.
  unfold iteration.
  destruct (negb _ && _); simpl.
  - apply receive_step_highest.
  - rewrite IH. simpl. apply receive_step_highest.
Qed.

Lemma poll_flag_stays_clear : forall tr st,
  udp_error st = false -> udp_error (final (poll t st tr)) = false.
Proof.
  induction tr as [| ev rest IH]; intros st Hclear; simpl;
    destruct (elapsed_time_us st <? t); try assumption.
  pose proof (receive_step_flag_stays_clear st (received ev) Hclear) as Hstep.
  unfold iteration.
  destruct (negb _ && _); simpl; [assumption |].
  apply IH. exact Hstep.
Qed.

(** With the flag cleared, the call has returned at the latest when a
    [recv] answers -1. *)
Lemma poll_returns_when_idle : forall tr st,
  udp_error st = false ->
  Exists (fun ev => ret (received ev) = -1) tr ->
  has_returned (poll t st tr) = true.
Proof.
  induction tr as [| ev rest IH]; intros st Hclear Hidle;
    [inversion Hidle |].
  simpl. destruct (elapsed_time_us st <? t); [| reflexivity].
  pose proof (receive_step_flag_stays_clear st (received ev) Hclear) as Hstep.
  destruct (iteration_cases st ev) as [(-> & _) | (-> & Hnext)]; [reflexivity |].
  apply IH; [exact Hstep |].
  apply Exists_cons in Hidle as [Hhead | Htail]; [| exact Htail].
  exfalso. rewrite Hhead in Hnext. destruct Hnext as [Hn | Hn].
  - rewrite Hstep in Hn. discriminate.
  - apply Hn. reflexivity.
Qed.

Section Channel.

(** The agreed packet length. *)
Variable n : Z.

(** A window in which every result fails the test on line 73. *)
Lemma poll_all_fail_test : forall tr st,
  size (recv_packet st) = n -> n <= INT_MAX -> udp_error st = true ->
  trace_ok n tr ->
  Forall (fun ev => ~ (ret (received ev) = n /\ n <= 32767)) tr ->
  udp_error (final (poll t st tr)) = true
  /\ recv_packet (final (poll t st tr)) = recv_packet st
  /\ (Exists (fun ev => t <= to_uint16 (clock_us ev)) tr ->
      has_returned (poll t st tr) = true).
Proof.
  induction tr as [| ev rest IH]; intros st Hsize Hmax Hflag Hok Hnone.
  - simpl. destruct (elapsed_time_us st <? t); simpl; repeat split; auto;
      intros Hex; inversion Hex.
  - destruct (Z_lt_le_dec (elapsed_time_us st) t) as [Hlt | Hge];
      [| rewrite poll_expired by exact Hge; simpl; auto].
    rewrite poll_step by exact Hlt.
    inversion Hok as [| ? ? Hev Hok']; subst.
    inversion Hnone as [| ? ? Hne Hnone']; subst.
    destruct (receive_step_fails_test st (received ev)) as [Hsame Hkeep]; auto.
    destruct (iteration_cases st ev) as [(_ & Hclear & _) | (-> & _)];
      [congruence |].
    set (st' := update_elapsed (receive_step st (received ev)) (clock_us ev)).
    destruct (IH st') as (Hf & Hp & Hr); auto.
    { simpl. now rewrite Hsame. }
    { simpl. congruence. }
    repeat split; auto.
    + rewrite Hp. exact Hsame.
    + intros Hex. apply Exists_cons in Hex as [Hhead | Htail]; [| auto].
      rewrite poll_expired by exact Hhead. reflexivity.
Qed.

(** A window in which no result has the agreed length. *)
Lemma poll_without_valid tr st :
  size (recv_packet st) = n -> n <= INT_MAX -> udp_error st = true ->
  trace_ok n tr ->
  Forall (fun ev => ret (received ev) <> n) tr ->
  udp_error (final (poll t st tr)) = true
  /\ recv_packet (final (poll t st tr)) = recv_packet st
  /\ (Exists (fun ev => t <= to_uint16 (clock_us ev)) tr ->
      has_returned (poll t st tr) = true).
Proof.
  intros Hsize Hmax Hflag Hok Hnone.
  apply poll_all_fail_test; auto.
  eapply Forall_impl; [| exact Hnone]. simpl. tauto.
Qed.

(** On a channel whose agreed length does not fit an [int16_t], no
    datagram passes the test, those of the agreed length included. *)
Lemma poll_large_channel tr st :
  size (recv_packet st) = n -> 32767 < n <= INT_MAX -> udp_error st = true ->
  trace_ok n tr ->
  udp_error (final (poll t st tr)) = true
  /\ recv_packet (final (poll t st tr)) = recv_packet st.
Proof.
  intros Hsize Hn Hflag Hok.
  destruct (poll_all_fail_test tr st) as (Hf & Hp & _); auto; try lia.
  apply Forall_forall. intros ev _. lia.
Qed.

(** A window in which every datagram of the agreed length carries
    sequence number 0. *)
Lemma poll_zero_sequences : forall tr st,
  sized n st -> n <= 32767 -> highest_sequence_number st = 0 ->
  trace_ok n tr ->
  Forall (fun ev => ret (received ev) = n
                    -> sequence_of (stored (received ev)) = 0) tr ->
  recv_packet (final (poll t st tr)) = recv_packet st.
Proof.
  induction tr as [| ev rest IH]; intros st Hsized Hsmall Hhigh Hok Hzero.
  - simpl. destruct (elapsed_time_us st <? t); reflexivity.
  - destruct (Z_lt_le_dec (elapsed_time_us st) t) as [Hlt | Hge];
      [| rewrite poll_expired by exact Hge; reflexivity].
    rewrite poll_step by exact Hlt.
    inversion Hok as [| ? ? Hev Hok']; subst.
    inversion Hzero as [| ? ? Hz Hzero']; subst.
    assert (recv_packet (receive_step st (received ev)) = recv_packet st)
      as Hsame.
    { destruct (Z.eq_dec (ret (received ev)) n) as [Heq | Hne].
      - destruct (receive_step_accepts st (received ev)) as [_ Hp].
        + now rewrite Heq.
        + lia.
        + destruct Hev as (_ & _ & Hlen). apply Hlen.
          pose proof (size_nonneg (recv_packet st)). destruct Hsized. lia.
        + rewrite Hp, Hhigh, (Hz Heq). reflexivity.
      - destruct Hsized as [Hp _]. subst n.
        apply receive_step_rejects; auto. unfold INT_MAX. lia. }
    pose proof (receive_step_sized n st (received ev) Hsized Hev) as Hsized'.
    destruct (iteration_cases st ev) as [(-> & _) | (-> & _)]; simpl;
      [exact Hsame |].
    rewrite IH; auto.
    simpl. now rewrite receive_step_highest.
Qed.

(** *** What the flag and the buffer hold after a window *)

(** On a channel whose packet length fits an [int16_t], the flag is false
    exactly when one of the events read delivered a datagram of the agreed
    length. *)
Lemma poll_flag_iff : forall tr st,
  sized n st -> n <= 32767 -> trace_ok n tr ->
  udp_error (final (poll t st tr)) = false
  <-> udp_error st = false
      \/ Exists (fun ev => ret (received ev) = n) (polled t st tr).
Proof.
  induction tr as [| ev rest IH]; intros st Hsized Hsmall Hok.
  - simpl. destruct (elapsed_time_us st <? t); simpl;
      (split; [auto | intros [H | H]; [exact H | inversion H]]).
  - destruct (Z_lt_le_dec (elapsed_time_us st) t) as [Hlt | Hge].
    2:{ rewrite poll_expired, polled_expired by exact Hge. simpl.
        split; [auto | intros [H | H]; [exact H | inversion H]]. }
    rewrite poll_step, polled_step by exact Hlt.
    inversion Hok as [| ? ? Hev Hok']; subst.
    pose proof (receive_step_flag_iff n st (received ev) Hsized Hsmall Hev)
      as Hstep.
    pose proof (receive_step_sized n st (received ev) Hsized Hev) as Hsized'.
    destruct (iteration_cases st ev) as [(-> & _) | (-> & _)]; simpl.
    + rewrite Hstep. split.
      * intros [H | H]; [left; exact H | right; now constructor].
      * intros [H | H]; [left; exact H |].
        apply Exists_cons in H as [Hhead | Htail];
          [right; exact Hhead | inversion Htail].
    + rewrite IH by assumption. simpl. rewrite Hstep. split.
      * intros [[H | H] | H]; [left; exact H | right; now constructor |].
        right. now apply Exists_cons_tl.
      * intros [H | H]; [left; left; exact H |].
        apply Exists_cons in H as [Hhead | Htail];
          [left; right; exact Hhead | right; exact Htail].
Qed.

(** On such a channel the caller's buffer ends up holding the last
    datagram read that has the agreed length and a non-zero sequence number,
    whatever the sequence numbers read before it. *)
Lemma poll_retained : forall tr st,
  sized n st -> n <= 32767 -> highest_sequence_number st = 0 ->
  trace_ok n tr ->
  recv_packet (final (poll t st tr))
  = fold_left (keep_fresh n) (polled t st tr) (recv_packet st).
Proof.
  induction tr as [| ev rest IH]; intros st Hsized Hsmall Hhigh Hok.
  - simpl. destruct (elapsed_time_us st <? t); reflexivity.
  - destruct (Z_lt_le_dec (elapsed_time_us st) t) as [Hlt | Hge];
      [| rewrite poll_expired, polled_expired by exact Hge; reflexivity].
    rewrite poll_step, polled_step by exact Hlt.
    inversion Hok as [| ? ? Hev Hok']; subst.
    assert (recv_packet (receive_step st (received ev))
            = keep_fresh n (recv_packet st) ev) as Hkeep.
    { unfold keep_fresh.
      destruct (Z.eqb_spec (ret (received ev)) n) as [Heq | Hne]; simpl.
      - destruct (receive_step_accepts st (received ev)) as [_ Hp].
        + now rewrite Heq.
        + lia.
        + destruct Hev as (_ & _ & Hlen). apply Hlen.
          destruct Hsized as [Hp _].
          pose proof (size_nonneg (recv_packet st)). lia.
        + now rewrite Hp, Hhigh.
      - destruct Hsized as [Hp _]. subst n.
        apply receive_step_rejects; auto. unfold INT_MAX. lia. }
    pose proof (receive_step_sized n st (received ev) Hsized Hev) as Hsized'.
    destruct (iteration_cases st ev) as [(-> & _) | (-> & _)]; simpl;
      [exact Hkeep |].
    rewrite IH; auto.
    + simpl. now rewrite Hkeep.
    + simpl. now rewrite receive_step_highest.
Qed.

(** A clock whose readings, cut to 16 bits, all fall below the window
    keeps a call without valid packets in the loop, however long it has
    really been running. *)
Lemma poll_wrapped_clock : forall tr st,
  elapsed_time_us st < t ->
  size (recv_packet st) = n -> n <= INT_MAX -> udp_error st = true ->
  trace_ok n tr ->
  Forall (fun ev => ret (received ev) <> n) tr ->
  Forall (fun ev => to_uint16 (clock_us ev) < t) tr ->
  has_returned (poll t st tr) = false.
Proof.
  induction tr as [| ev rest IH]; intros st Hlt Hsize Hmax Hflag Hok Hnone Hlow.
  - apply Z.ltb_lt in Hlt. simpl. now rewrite Hlt.
  - rewrite poll_step by exact Hlt.
    inversion Hok as [| ? ? Hev Hok']; subst.
    inversion Hnone as [| ? ? Hne Hnone']; subst.
    inversion Hlow as [| ? ? Hc Hlow']; subst.
    destruct (receive_step_rejects st (received ev)) as [Hsame Hkeep]; auto.
    destruct (iteration_cases st ev) as [(_ & Hclear & _) | (-> & _)];
      [congruence |].
    apply IH; simpl; auto; congruence.
Qed.

End Channel.

(** *** Time *)

(** While the clock never goes back and no iteration takes longer than the
    gap between the window and 2^16 microseconds, the call has returned by
    the first reading at or past the window, and every reading it took is
    below the window plus one iteration's overhead. *)
Lemma poll_returns_within overhead :
  overhead <= 65536 - t ->
  forall tr st,
    0 <= elapsed_time_us st ->
    paced overhead (elapsed_time_us st) tr ->
    Exists (fun ev => t <= clock_us ev) tr ->
    has_returned (poll t st tr) = true
    /\ Forall (fun ev => clock_us ev < t + overhead) (polled t st tr).
Proof.
  intros Hgap.
  induction tr as [| ev rest IH]; intros st Hpos Hpaced Hex;
    [inversion Hex |].
  destruct (Z_lt_le_dec (elapsed_time_us st) t) as [Hlt | Hge];
    [| rewrite poll_expired, polled_expired by exact Hge; split;
       [reflexivity | constructor]].
  rewrite poll_step, polled_step by exact Hlt.
  destruct Hpaced as [Hclock Hpaced].
  assert (to_uint16 (clock_us ev) = clock_us ev) as Hfits
    by (apply to_uint16_small; lia).
  destruct (iteration_cases st ev) as [(-> & _) | (-> & _)].
  - split; [reflexivity |]. repeat constructor. lia.
  - set (st' := update_elapsed _ _).
    assert (elapsed_time_us st' = clock_us ev) as Hnow by exact Hfits.
    destruct (Z_lt_le_dec (clock_us ev) t) as [Hbefore | Hpast].
    + destruct (IH st') as [Hret Hall]; try (rewrite Hnow); auto; try lia.
      { apply Exists_cons in Hex as [Hhead | Htail]; [lia | exact Htail]. }
      split; [exact Hret |]. constructor; [lia | exact Hall].
    + rewrite poll_expired, polled_expired by (rewrite Hnow; exact Hpast).
      split; [reflexivity |]. repeat constructor. lia.
Qed.

End Loop.

(** *** The whole call *)

Lemma readUdp_defined caller_packet udp_rate t tr :
  Timeout.timeout_us udp_rate = Some t ->
  readUdp caller_packet udp_rate tr = Some (poll t (entry caller_packet) tr).
Proof. intros Ht. unfold readUdp. now rewrite Ht. Qed.

(** What a call on a channel of 4 to 32767 bytes hands back: the flag
    tells whether a datagram of the agreed length was read, and the buffer
    holds the last such datagram with a non-zero sequence number. *)
Lemma readUdp_summary caller_packet udp_rate t tr :
  Timeout.timeout_us udp_rate = Some t ->
  4 <= size caller_packet <= 32767 ->
  trace_ok (size caller_packet) tr ->
  exists o,
    readUdp caller_packet udp_rate tr = Some o
    /\ (udp_error (final o) = false
        <-> Exists (fun ev => ret (received ev) = size caller_packet)
              (polled t (entry caller_packet) tr))
    /\ recv_packet (final o)
       = last_nonzero caller_packet (polled t (entry caller_packet) tr)
    /\ tr = polled t (entry caller_packet) tr ++ unread o.
Proof.
  intros Ht Hsmall Hok.
  exists (poll t (entry caller_packet) tr).
  pose proof (entry_sized caller_packet) as Hsized.
  split; [now apply readUdp_defined |]. split; [| split].
  - rewrite (poll_flag_iff t (size caller_packet)) by (assumption || lia).
    simpl. split; [intros [H | H]; [discriminate | exact H] | auto].
  - unfold last_nonzero.
    rewrite (poll_retained t (size caller_packet)); auto. lia.
  - apply polled_unread.
Qed.

End ReadUdpFacts.

(** ** What [readUdp] guarantees *)

Module ReadUdpClaims.

Import Width Packet Env UdpUtils Scenario WidthFacts ReadUdpFacts.

(** Closed side conditions, settled by evaluation. *)
Ltac evaluate :=
  repeat first
    [ apply Forall_nil
    | apply Forall_cons
    | split
    | reflexivity
    | (intro; discriminate)
    | (intros; reflexivity)
    | (let H := fresh in intro H; exfalso; apply H; reflexivity)
    | progress vm_compute ].

(** C1 (not met by the code). Scenario A at 200 Hz: packet 5 arrives, then
    packet 3, then nothing. [highest_sequence_number] is never assigned, so
    the later packet 3 passes the test [3 > 0] and is swapped in: the call
    returns with the flag false and packet 3 in the caller's buffer, where
    step 3b of the specification keeps packet 5. *)
Theorem scenario_A_keeps_the_later_packet :
  let tr := [at_us 100 (datagram P5); at_us 200 (datagram P3); at_us 300 nothing] in
  let st := final (poll 6000 (entry stale) tr) in
  readUdp stale 200 tr = Some (Returned st [])
  /\ udp_error st = false
  /\ recv_packet st = P3
  /\ highest_sequence_number st = 0
  /\ sequence_of P5 = 5 /\ sequence_of P3 = 3
  /\ SpecReceiver.scratch
       (SpecReceiver.spec_retained stale [datagram P5; datagram P3]) = P5.
Proof. repeat split; vm_compute; reflexivity. Qed.

(** C2 (not met by the code). Scenario C at 200 Hz: two packets numbered
    5 arrive, then nothing. The second copy passes the test [5 > 0] like the
    first and replaces it; a packet numbered 3 arriving after it replaces it
    in turn. Step 3b of the specification keeps the first copy in both
    windows. *)
Theorem scenario_C_keeps_the_second_copy :
  let tie := [at_us 100 (datagram P5); at_us 200 (datagram P5_again);
              at_us 300 nothing] in
  let lower := [at_us 100 (datagram P5); at_us 200 (datagram P5_again);
                at_us 300 (datagram P3); at_us 400 nothing] in
  let st := final (poll 6000 (entry stale) tie) in
  let st' := final (poll 6000 (entry stale) lower) in
  readUdp stale 200 tie = Some (Returned st [])
  /\ udp_error st = false
  /\ recv_packet st = P5_again
  /\ readUdp stale 200 lower = Some (Returned st' [])
  /\ recv_packet st' = P3
  /\ P5_again <> P5
  /\ sequence_of P5 = 5 /\ sequence_of P5_again = 5 /\ sequence_of P3 = 3
  /\ SpecReceiver.scratch
       (SpecReceiver.spec_retained stale [datagram P5; datagram P5_again]) = P5
  /\ SpecReceiver.scratch
       (SpecReceiver.spec_retained stale
          [datagram P5; datagram P5_again; datagram P3]) = P5.
Proof. repeat split; try (vm_compute; reflexivity). discriminate. Qed.

(** C5 (not met by the code). At 19 Hz the window is 63157 microseconds.
    With nothing arriving and every iteration taking 2500 microseconds (the
    first ends at 600), the reading 65600 follows 63100; stored in the
    16-bit [elapsed_time_us] it reads 64, and the loop goes on. After 52
    iterations the clock shows 128100 microseconds, more than the window
    plus one iteration, and the call is still polling; it returns with the
    53rd, at 130600. *)
Theorem window_overrun_after_clock_wrap :
  Timeout.timeout_us 19 = Some 63157
  /\ paced 2500 0 (quiet 600 2500 53)
  /\ option_map has_returned (readUdp stale 19 (quiet 600 2500 52)) = Some false
  /\ map clock_us (skipn 51 (quiet 600 2500 53)) = [128100; 130600]
  /\ 63157 + 2500 < 128100
  /\ option_map (fun o => (has_returned o, unread o))
       (readUdp stale 19 (quiet 600 2500 53)) = Some (true, []).
Proof.
  repeat split; try (vm_compute; reflexivity);
    vm_compute; intro; discriminate.
Qed.

(** C6. Size gating. A result of [recv] whose byte count is not the agreed
    packet length (-1 included) changes neither the caller's buffer nor the
    error flag, whatever the state of the call, and the bytes it stored
    never reach the caller's buffer later: after any [recv] the buffer is
    what it was or a datagram of the agreed length. In particular, when the
    only datagram of a window is one byte short, the flag is still true and
    the buffer is the caller's. *)
Theorem size_gating :
  (forall st r,
      size (recv_packet st) <= INT_MAX ->
      recv_ok (size (recv_packet st)) r ->
      ret r <> size (recv_packet st) ->
      recv_packet (receive_step st r) = recv_packet st
      /\ udp_error (receive_step st r) = udp_error st)
  /\ (forall n st r,
         sized n st -> 4 <= n <= INT_MAX -> recv_ok n r ->
         recv_packet (receive_step st r) = recv_packet st
         \/ (ret r = n /\ recv_packet (receive_step st r) = stored r))
  /\ (forall caller_packet udp_rate t short c rest,
         Timeout.timeout_us udp_rate = Some t ->
         size caller_packet <= INT_MAX ->
         size short = size caller_packet - 1 ->
         Forall (fun ev => received ev = nothing) rest ->
         exists o,
           readUdp caller_packet udp_rate (at_us c (datagram short) :: rest) = Some o
           /\ udp_error (final o) = true
           /\ recv_packet (final o) = caller_packet
           /\ (Exists (fun ev => t <= to_uint16 (clock_us ev))
                 (at_us c (datagram short) :: rest)
               -> has_returned o = true)).
Proof.
  split; [| split].
  - intros st r. apply receive_step_rejects.
  - intros n st r Hsized Hn. apply receive_step_buffer_cases; [exact Hsized | lia].
  - intros caller_packet udp_rate t short c rest Ht Hmax Hshort Hquiet.
    unfold readUdp. rewrite Ht. eexists. split; [reflexivity |].
    pose proof (size_nonneg short) as Hs.
    pose proof (size_nonneg caller_packet) as Hc.
    apply (poll_without_valid t (size caller_packet)); auto.
    + constructor.
      * unfold recv_ok, at_us, datagram. simpl. lia.
      * eapply Forall_impl; [| exact Hquiet].
        intros ev ->. unfold recv_ok, nothing. simpl.
        change (size []) with 0. lia.
    + constructor.
      * unfold at_us, datagram. simpl. lia.
      * eapply Forall_impl; [| exact Hquiet].
        intros ev ->. unfold nothing. simpl. lia.
Qed.

Lemma size_gating_witness :
  (recv_packet (receive_step (entry stale) (datagram P5_short)) = stale
   /\ udp_error (receive_step (entry stale) (datagram P5_short)) = true)
  /\ (recv_packet (receive_step (entry stale) (datagram P5)) = stale
      \/ (ret (datagram P5) = 8
          /\ recv_packet (receive_step (entry stale) (datagram P5))
             = stored (datagram P5)))
  /\ exists o,
       readUdp stale 200 (at_us 100 (datagram P5_short) :: quiet 2000 2000 3)
       = Some o
       /\ udp_error (final o) = true
       /\ recv_packet (final o) = stale
       /\ (Exists (fun ev => 6000 <= to_uint16 (clock_us ev))
             (at_us 100 (datagram P5_short) :: quiet 2000 2000 3)
           -> has_returned o = true).
Proof.
  split; [| split].
  - apply (proj1 size_gating (entry stale) (datagram P5_short)); evaluate.
  - apply (proj1 (proj2 size_gating) 8 (entry stale) (datagram P5)); evaluate.
  - apply (proj2 (proj2 size_gating) stale 200 6000 P5_short 100
             (quiet 2000 2000 3)); evaluate.
Defined.

(** C7. Idle early exit. When a call is still polling with the error flag
    already cleared and the next [recv] answers -1, the call returns on the
    spot: the clock is not read again and the rest of the trace is left
    unread, although the window has not elapsed. *)
Theorem idle_early_exit caller_packet udp_rate t pre st ev rest :
  Timeout.timeout_us udp_rate = Some t ->
  poll t (entry caller_packet) pre = Polling st ->
  udp_error st = false ->
  ret (received ev) = -1 ->
  exists st',
    readUdp caller_packet udp_rate (pre ++ ev :: rest) = Some (Returned st' rest)
    /\ udp_error st' = false
    /\ elapsed_time_us st' = elapsed_time_us st
    /\ elapsed_time_us st' < t.
Proof.
  intros Ht Hpre Hclear Hidle.
  pose proof (poll_polling_elapsed t pre _ _ Hpre) as Hlt.
  unfold readUdp. rewrite Ht, poll_app, Hpre, poll_step by exact Hlt.
  pose proof (receive_step_flag_stays_clear st (received ev) Hclear) as Hstep.
  destruct (iteration_cases st ev) as [(-> & _) | (_ & Hnext)].
  - exists (receive_step st (received ev)).
    rewrite receive_step_elapsed. auto.
  - exfalso. rewrite Hidle in Hnext. destruct Hnext as [Hn | Hn].
    + congruence.
    + apply Hn. reflexivity.
Qed.

Lemma idle_early_exit_witness :
  exists st',
    readUdp stale 200
      ([at_us 100 (datagram P5)] ++ at_us 200 nothing :: [at_us 300 (datagram P3)])
    = Some (Returned st' [at_us 300 (datagram P3)])
    /\ udp_error st' = false
    /\ elapsed_time_us st' = 100
    /\ elapsed_time_us st' < 6000.
Proof.
  apply (idle_early_exit stale 200 6000 [at_us 100 (datagram P5)]
           (final (poll 6000 (entry stale) [at_us 100 (datagram P5)]))
           (at_us 200 nothing) [at_us 300 (datagram P3)]).
  - evaluate.
  - evaluate.
  - evaluate.
  - evaluate.
Defined.

(** C8 (not met by the code). On a channel whose agreed packet length is
    32768 bytes, [recv] returns 32768 for a datagram of exactly that length;
    stored in the 16-bit [bytes_received] it reads -32768, the test on line
    73 fails, and the call returns true although a datagram of the agreed
    length was read. *)
Theorem full_length_datagram_reported_as_error :
  let tr := [at_us 100 (datagram big_packet); at_us 6000 nothing] in
  ret (datagram big_packet) = size big_stale
  /\ size big_stale = 32768
  /\ to_int16 (ret (datagram big_packet)) = -32768
  /\ option_map (fun o => (has_returned o, unread o, udp_error (final o)))
       (readUdp big_stale 200 tr) = Some (true, [], true).
Proof. repeat split; vm_compute; reflexivity. Qed.

(** C9. No data. When no datagram of the agreed length arrives and the
    window elapses, the call returns with the error flag true and the
    caller's buffer exactly as it was at entry. *)
Theorem no_valid_packet_leaves_buffer caller_packet udp_rate t tr :
  Timeout.timeout_us udp_rate = Some t ->
  size caller_packet <= INT_MAX ->
  trace_ok (size caller_packet) tr ->
  Forall (fun ev => ret (received ev) <> size caller_packet) tr ->
  Exists (fun ev => t <= to_uint16 (clock_us ev)) tr ->
  exists st u,
    readUdp caller_packet udp_rate tr = Some (Returned st u)
    /\ udp_error st = true
    /\ recv_packet st = caller_packet.
Proof.
  intros Ht Hmax Hok Hnone Hexpires.
  unfold readUdp. rewrite Ht.
  destruct (poll_without_valid t (size caller_packet) tr (entry caller_packet))
    as (Hflag & Hbuf & Hret); auto.
  specialize (Hret Hexpires).
  destruct (poll t (entry caller_packet) tr) as [st u | st];
    [| discriminate].
  exists st, u. auto.
Qed.

Lemma no_valid_packet_leaves_buffer_witness :
  exists st u,
    readUdp stale 200 (at_us 1500 (datagram P5_short) :: quiet 3000 1500 4)
    = Some (Returned st u)
    /\ udp_error st = true
    /\ recv_packet st = stale.
Proof.
  apply (no_valid_packet_leaves_buffer stale 200 6000
           (at_us 1500 (datagram P5_short) :: quiet 3000 1500 4)).
  - evaluate.
  - evaluate.
  - evaluate.
  - evaluate.
  - do 3 apply Exists_cons_tl. apply Exists_cons_hd. evaluate.
Defined.

(** C10. A datagram of the agreed length whose sequence number is 0 clears
    the error flag but is not copied: if such a datagram is the first of a
    window and no later one carries a non-zero sequence number, the call
    reports success with the caller's buffer exactly as it was at entry,
    and it has returned once a [recv] answers -1. *)
Theorem zero_sequence_reported_not_copied caller_packet udp_rate t p c rest :
  Timeout.timeout_us udp_rate = Some t ->
  0 < t ->
  4 <= size caller_packet <= 32767 ->
  size p = size caller_packet ->
  sequence_of p = 0 ->
  trace_ok (size caller_packet) rest ->
  Forall (fun ev => ret (received ev) = size caller_packet
                    -> sequence_of (stored (received ev)) = 0) rest ->
  exists o,
    readUdp caller_packet udp_rate (at_us c (datagram p) :: rest) = Some o
    /\ udp_error (final o) = false
    /\ recv_packet (final o) = caller_packet
    /\ (Exists (fun ev => ret (received ev) = -1) rest -> has_returned o = true).
Proof.
  intros Ht Hpos Hn Hp Hseq Hok Hzero.
  unfold readUdp. rewrite Ht. eexists. split; [reflexivity |].
  rewrite poll_step by (simpl; lia).
  pose proof (entry_sized caller_packet) as Hsized.
  assert (Hacc := receive_step_accepts (entry caller_packet) (datagram p)).
  change (ret (datagram p)) with (size p) in Hacc.
  change (stored (datagram p)) with p in Hacc.
  rewrite Hp in Hacc.
  destruct Hacc as [Hflag Hbuf]; [exact Hsized | lia | reflexivity |].
  assert (recv_packet (receive_step (entry caller_packet) (datagram p))
          = caller_packet) as Hkept
    by (rewrite Hbuf, Hseq; reflexivity).
  assert (recv_ok (size caller_packet) (datagram p)) as Hev
    by (unfold recv_ok, datagram; simpl; lia).
  pose proof (receive_step_sized _ _ _ Hsized Hev) as Hsized'.
  destruct (iteration_cases (entry caller_packet) (at_us c (datagram p)))
    as [(_ & _ & Hm) | (-> & _)].
  { exfalso. simpl in Hm. rewrite Hp, to_int16_small in Hm; lia. }
  set (st' := update_elapsed _ _).
  assert (udp_error st' = false) as Hflag' by exact Hflag.
  repeat split.
  - now apply poll_flag_stays_clear.
  - rewrite (poll_zero_sequences t (size caller_packet)); auto; try lia.
    simpl. now rewrite receive_step_highest.
  - intros Hidle. now apply poll_returns_when_idle.
Qed.

Lemma zero_sequence_reported_not_copied_witness :
  exists o,
    readUdp stale 200 (at_us 100 (datagram P0) :: [at_us 200 nothing]) = Some o
    /\ udp_error (final o) = false
    /\ recv_packet (final o) = stale
    /\ (Exists (fun ev => ret (received ev) = -1) [at_us 200 nothing]
        -> has_returned o = true).
Proof.
  apply (zero_sequence_reported_not_copied stale 200 6000 P0 100
           [at_us 200 nothing]).
  - evaluate.
  - evaluate.
  - evaluate.
  - evaluate.
  - evaluate.
  - evaluate.
  - evaluate.
Defined.

End ReadUdpClaims.

(** ** What the timeout computation guarantees *)

Module TimeoutClaims.

Import Timeout TimeoutFacts.

(** C4, as the code has it. For every rate from 19 to 65535 Hz the window
    is the integer part of the binary64 value of
    [1.2 * (1000000.0 / udp_rate)]: a whole number of microseconds that is
    at most the exact 1.2 x (1,000,000 / rate) and at least that minus 1.
    At 200 Hz it is 6000. *)
Theorem timeout_window_truncated udp_rate :
  19 <= udp_rate <= 65535 ->
  exists t,
    timeout_us udp_rate = Some t
    /\ double_trunc (timeout_double udp_rate) = Some t
    /\ (inject_Z t <= spec_window udp_rate)%Q
    /\ (spec_window udp_rate <= inject_Z t + 1)%Q
    /\ (udp_rate = 200 -> t = 6000).
Proof.
  intros Hr.
  destruct (timeout_us_in_range udp_rate Hr) as (t & Ht & Hb & Hlo & Hhi).
  exists t. split; [exact Ht |]. split; [| split; [| split]].
  - unfold timeout_us, double_to_uint16 in Ht.
    destruct (double_trunc (timeout_double udp_rate)) as [z |];
      [| discriminate].
    destruct ((0 <=? z) && (z <=? 65535)); [exact Ht | discriminate].
  - apply spec_window_lower; lia.
  - apply spec_window_upper; lia.
  - intros ->. vm_compute in Ht. congruence.
Qed.

Lemma timeout_window_truncated_witness :
  exists t,
    timeout_us 200 = Some t
    /\ double_trunc (timeout_double 200) = Some t
    /\ (inject_Z t <= spec_window 200)%Q
    /\ (spec_window 200 <= inject_Z t + 1)%Q
    /\ (200 = 200 -> t = 6000).
Proof. apply (timeout_window_truncated 200). lia. Defined.

(** C4 as stated fails. At 24 Hz the exact window is 50000 microseconds
    and line 63 yields 49999: the binary64 product falls just below 50000
    and the conversion drops the fraction. At 18 Hz the exact window,
    66666.67 microseconds, does not fit a [uint16_t] and the conversion is
    undefined. *)
Lemma timeout_window_not_exact :
  timeout_us 24 = Some 49999
  /\ (spec_window 24 == inject_Z 50000)%Q
  /\ ~ (inject_Z 49999 == spec_window 24)%Q
  /\ timeout_us 18 = None.
Proof.
  repeat split; try (vm_compute; reflexivity).
  vm_compute. discriminate.
Qed.

End TimeoutClaims.

(** ** What a failed construction leaves behind *)

Module EndpointFacts.

Import Endpoint.

(** Runs a constructor symbolically, splitting on every answer of the
    system. *)
Ltac run_constructor :=
  unfold UdpClient, UdpServer, initialize_winsock, bind, WSAStartup, WSACleanup,
    getaddrinfo, socket, ioctlsocket, bind_socket, freeaddrinfo, closesocket,
    throw, pure;
  repeat (cbn; match goal with
               | |- context [if ?c then _ else _] => destruct c eqn:?
               end);
  cbn.

(** Every throw of [UdpClient] other than the one after [ioctlsocket]
    leaves the holdings as they were. *)
Lemma UdpClient_unwinds sys l e l' :
  UdpClient sys l = (Thrown e, l') ->
  e <> failed_to_set_non_blocking ->
  same_holdings l l'.
Proof.
  unfold same_holdings. run_constructor;
    intros Heq Hne; inversion Heq; subst; simpl; auto; try congruence;
    destruct (getaddrinfo_r sys =? 0), (getaddrinfo_null sys); discriminate.
Qed.

(** The same for [UdpServer], whose failed [bind] frees the address list
    and closes the socket. *)
Lemma UdpServer_unwinds sys l e l' :
  UdpServer sys l = (Thrown e, l') ->
  e <> failed_to_set_non_blocking ->
  same_holdings l l'.
Proof.
  unfold same_holdings. run_constructor;
    intros Heq Hne; inversion Heq; subst; simpl; auto; try congruence;
    destruct (getaddrinfo_r sys =? 0), (getaddrinfo_null sys); discriminate.
Qed.

(** When [ioctlsocket] fails, both constructors throw while the address
    list and the socket are still held. *)
Lemma ioctlsocket_failure_keeps_both sys l :
  getaddrinfo_r sys = 0 -> getaddrinfo_null sys = false ->
  socket_invalid sys = false -> ioctlsocket_r sys <> 0 ->
  UdpServer sys l = UdpClient sys l
  /\ fst (UdpClient sys l) = Thrown failed_to_set_non_blocking
  /\ addrinfo_held (snd (UdpClient sys l)) = S (addrinfo_held l)
  /\ sockets_open (snd (UdpClient sys l)) = S (sockets_open l).
Proof.
  intros Hr Hnull Hsock Hioctl. apply Z.eqb_neq in Hioctl.
  unfold UdpClient, UdpServer, initialize_winsock, bind, WSAStartup,
    WSACleanup, getaddrinfo, socket, ioctlsocket, throw, pure.
  rewrite Hr, Hnull, Hsock.
  destruct (WSAStartup_result sys =? 0) eqn:Hw; cbn;
    rewrite ?Hw, Hioctl; cbn; repeat split.
Qed.

End EndpointFacts.

Module EndpointClaims.

Import Endpoint.

(** C3 (not met by the code). When address resolution and socket creation
    succeed and [ioctlsocket] refuses non-blocking mode, [UdpClient] and
    [UdpServer] call [WSACleanup] and throw; neither calls [freeaddrinfo]
    or [closesocket], as the branches for a failed [socket] and a failed
    [bind] do. A process that held nothing is left holding one address list
    and one open socket. *)
Theorem failed_non_blocking_mode_leaks :
  UdpClient non_blocking_refused nothing_held
  = (Thrown failed_to_set_non_blocking, mkLedger 0 1 1)
  /\ UdpServer non_blocking_refused nothing_held
     = (Thrown failed_to_set_non_blocking, mkLedger 0 1 1)
  /\ leaks nothing_held (snd (UdpClient non_blocking_refused nothing_held)) = true
  /\ leaks nothing_held (snd (UdpServer non_blocking_refused nothing_held)) = true.
Proof. repeat split. Qed.

End EndpointClaims.

(** ** More about [readUdp] *)

Module ReadUdpMore.

Import Width Packet Env UdpUtils Scenario Arrival WidthFacts ReadUdpFacts.

Ltac settle :=
  repeat first
    [ apply Forall_nil
    | apply Forall_cons
    | split
    | reflexivity
    | (intro; discriminate)
    | (intros; reflexivity)
    | (let H := fresh in intro H; exfalso; apply H; reflexivity)
    | progress vm_compute ].

(** *** The flag and the buffer *)

(** X1. On a channel whose packets have 4 to 32767 bytes, the value
    [readUdp] returns is false exactly when one of the [recv] calls it made
    delivered a datagram of the agreed length. *)
Theorem error_flag_reports_valid_datagram caller_packet udp_rate t tr :
  Timeout.timeout_us udp_rate = Some t ->
  4 <= size caller_packet <= 32767 ->
  trace_ok (size caller_packet) tr ->
  exists o read,
    readUdp caller_packet udp_rate tr = Some o
    /\ tr = read ++ unread o
    /\ (udp_error (final o) = false
        <-> Exists (fun ev => ret (received ev) = size caller_packet) read).
Proof.
  intros Ht Hn Hok.
  exists (poll t (entry caller_packet) tr), (polled t (entry caller_packet) tr).
  split; [now apply readUdp_defined |]. split; [apply polled_unread |].
  rewrite (poll_flag_iff t (size caller_packet));
    [| apply entry_sized | lia | exact Hok].
  simpl. split; [intros [H | H]; [discriminate | exact H] | auto].
Qed.

Lemma error_flag_reports_valid_datagram_witness :
  exists o read,
    readUdp stale 200
      [at_us 100 (datagram P5_short); at_us 200 (datagram P3); at_us 300 nothing;
       at_us 400 (datagram P5)] = Some o
    /\ [at_us 100 (datagram P5_short); at_us 200 (datagram P3); at_us 300 nothing;
        at_us 400 (datagram P5)] = read ++ unread o
    /\ (udp_error (final o) = false
        <-> Exists (fun ev => ret (received ev) = size stale) read).
Proof.
  apply (error_flag_reports_valid_datagram stale 200 6000); settle.
Defined.

(** X2. On such a channel the caller's buffer ends up holding the last
    datagram read that has the agreed length and a sequence number other
    than 0, whatever was read before it; with no such datagram it is left
    as the caller passed it. *)
Theorem buffer_holds_last_nonzero caller_packet udp_rate t tr :
  Timeout.timeout_us udp_rate = Some t ->
  4 <= size caller_packet <= 32767 ->
  trace_ok (size caller_packet) tr ->
  exists o read,
    readUdp caller_packet udp_rate tr = Some o
    /\ tr = read ++ unread o
    /\ recv_packet (final o) = last_nonzero caller_packet read.
Proof.
  intros Ht Hn Hok.
  exists (poll t (entry caller_packet) tr), (polled t (entry caller_packet) tr).
  split; [now apply readUdp_defined |]. split; [apply polled_unread |].
  unfold last_nonzero.
  apply (poll_retained t (size caller_packet));
    [apply entry_sized | lia | reflexivity | exact Hok].
Qed.

Lemma buffer_holds_last_nonzero_witness :
  exists o read,
    readUdp stale 200
      [at_us 100 (datagram P5); at_us 200 (datagram P0); at_us 300 (datagram P3);
       at_us 400 nothing] = Some o
    /\ [at_us 100 (datagram P5); at_us 200 (datagram P0); at_us 300 (datagram P3);
        at_us 400 nothing] = read ++ unread o
    /\ recv_packet (final o)
       = last_nonzero stale read.
Proof.
  apply (buffer_holds_last_nonzero stale 200 6000); settle.
Defined.

(** *** Arrival in order *)

Lemma ascending_prefix n : forall pre floor post,
  ascending n floor (pre ++ post) -> ascending n floor pre.
Proof.
  induction pre as [| ev rest IH]; intros floor post Hasc; simpl in *;
    [exact I |].
  destruct (ret (received ev) =? n).
  - destruct Hasc as [Hlt Hrest]. split; [exact Hlt | eauto].
  - eauto.
Qed.

(** Step 3b of the specification and the loop body keep the same packet
    as long as the sequence numbers go up. *)
Lemma spec_fold_agrees n : forall read kept hi flag,
  size kept = n -> trace_ok n read -> 0 <= hi -> ascending n hi read ->
  SpecReceiver.scratch
    (fold_left SpecReceiver.spec_step (map received read)
       (SpecReceiver.mkSpec kept hi flag))
  = fold_left (keep_fresh n) read kept.
Proof.
  induction read as [| ev rest IH]; intros kept hi flag Hsize Hok Hhi Hasc;
    [reflexivity |].
  apply Forall_cons_iff in Hok as [Hev Hok'].
  simpl in *. unfold SpecReceiver.spec_step, keep_fresh. simpl.
  rewrite Hsize.
  destruct (Z.eqb_spec (ret (received ev)) n) as [Heq | Hne]; simpl.
  - destruct Hasc as [Hlt Hrest].
    assert ((sequence_of (stored (received ev)) >? hi) = true) as ->
      by (apply Z.gtb_lt; lia).
    assert ((sequence_of (stored (received ev)) >? 0) = true) as ->
      by (apply Z.gtb_lt; lia).
    apply IH; auto; try lia.
    destruct Hev as (_ & _ & Hlen). rewrite Hlen; [exact Heq |].
    pose proof (size_nonneg kept). lia.
  - apply IH; auto.
Qed.

Lemma spec_fold_flag n : forall read kept hi flag,
  size kept = n -> trace_ok n read ->
  SpecReceiver.errorFlag
    (fold_left SpecReceiver.spec_step (map received read)
       (SpecReceiver.mkSpec kept hi flag)) = false
  <-> flag = false \/ Exists (fun ev => ret (received ev) = n) read.
Proof.
  induction read as [| ev rest IH]; intros kept hi flag Hsize Hok.
  - simpl. split; [auto | intros [H | H]; [exact H | inversion H]].
  - apply Forall_cons_iff in Hok as [Hev Hok'].
    simpl. unfold SpecReceiver.spec_step. simpl.
    rewrite Exists_cons, Hsize.
    destruct (Z.eqb_spec (ret (received ev)) n) as [Heq | Hne].
    + assert (size (stored (received ev)) = n) as Hlen.
      { destruct Hev as (_ & _ & Hlen). rewrite Hlen; [exact Heq |].
        pose proof (size_nonneg kept). lia. }
      destruct (_ >? _); rewrite IH by assumption; tauto.
    + rewrite IH by assumption. tauto.
Qed.

(** X3. When the datagrams of the agreed length arrive with sequence
    numbers that start above 0 and go up strictly, [readUdp] hands back what
    step 3b of the specification prescribes: the same buffer contents and
    the same flag. *)
Theorem in_order_arrival_meets_specification caller_packet udp_rate t tr :
  Timeout.timeout_us udp_rate = Some t ->
  4 <= size caller_packet <= 32767 ->
  trace_ok (size caller_packet) tr ->
  ascending (size caller_packet) 0 tr ->
  exists o read,
    readUdp caller_packet udp_rate tr = Some o
    /\ tr = read ++ unread o
    /\ recv_packet (final o)
       = SpecReceiver.scratch
           (SpecReceiver.spec_retained caller_packet (map received read))
    /\ udp_error (final o)
       = SpecReceiver.errorFlag
           (SpecReceiver.spec_retained caller_packet (map received read)).
Proof.
  intros Ht Hn Hok Hasc.
  set (read := polled t (entry caller_packet) tr).
  pose proof (polled_unread t tr (entry caller_packet)) as Hsplit.
  fold read in Hsplit.
  assert (trace_ok (size caller_packet) read) as Hok'.
  { unfold trace_ok in *. rewrite Hsplit in Hok.
    apply Forall_app in Hok. tauto. }
  assert (ascending (size caller_packet) 0 read) as Hasc'.
  { rewrite Hsplit in Hasc. eapply ascending_prefix; exact Hasc. }
  exists (poll t (entry caller_packet) tr), read.
  split; [now apply readUdp_defined |]. split; [exact Hsplit |].
  unfold SpecReceiver.spec_retained, SpecReceiver.spec_entry. split.
  - rewrite (spec_fold_agrees (size caller_packet)); auto; try lia.
    apply (poll_retained t (size caller_packet));
      [apply entry_sized | lia | reflexivity | exact Hok].
  - pose proof (poll_flag_iff t (size caller_packet) tr (entry caller_packet)
                  (entry_sized caller_packet) ltac:(lia) Hok) as Hcode.
    pose proof (spec_fold_flag (size caller_packet) read caller_packet 0 true
                  eq_refl Hok') as Hspec.
    fold read in Hcode. simpl in Hcode.
    destruct (udp_error (final (poll t (entry caller_packet) tr)));
      destruct (SpecReceiver.errorFlag _); try reflexivity; exfalso.
    + destruct (proj1 Hspec eq_refl) as [H | H]; [discriminate |].
      assert (true = false) by (apply Hcode; right; exact H).
      discriminate.
    + destruct (proj1 Hcode eq_refl) as [H | H]; [discriminate |].
      assert (true = false) by (apply Hspec; right; exact H).
      discriminate.
Qed.

Lemma in_order_arrival_meets_specification_witness :
  exists o read,
    readUdp stale 200
      [at_us 100 (datagram P3); at_us 200 (datagram P5_short);
       at_us 300 (datagram P5); at_us 400 nothing] = Some o
    /\ [at_us 100 (datagram P3); at_us 200 (datagram P5_short);
        at_us 300 (datagram P5); at_us 400 nothing] = read ++ unread o
    /\ recv_packet (final o)
       = SpecReceiver.scratch
           (SpecReceiver.spec_retained stale (map received read))
    /\ udp_error (final o)
       = SpecReceiver.errorFlag
           (SpecReceiver.spec_retained stale (map received read)).
Proof.
  apply (in_order_arrival_meets_specification stale 200 6000); settle.
Defined.

(** *** Time *)

(** X4. While the clock never goes back and no loop iteration takes longer
    than the gap between the window and 65536 microseconds, [readUdp] has
    returned by the first clock reading at or past the window, and every
    reading it took is below the window plus one iteration's overhead. For
    rates from 19 to 65535 Hz the gap is at least 2379 microseconds. *)
Theorem returns_within_window caller_packet udp_rate t overhead tr :
  Timeout.timeout_us udp_rate = Some t ->
  overhead <= 65536 - t ->
  paced overhead 0 tr ->
  Exists (fun ev => t <= clock_us ev) tr ->
  exists o read,
    readUdp caller_packet udp_rate tr = Some o
    /\ has_returned o = true
    /\ tr = read ++ unread o
    /\ Forall (fun ev => clock_us ev < t + overhead) read
    /\ (19 <= udp_rate <= 65535 -> 2379 <= 65536 - t).
Proof.
  intros Ht Hgap Hpaced Hex.
  exists (poll t (entry caller_packet) tr), (polled t (entry caller_packet) tr).
  destruct (poll_returns_within t overhead Hgap tr (entry caller_packet))
    as [Hret Hall]; [simpl; lia | exact Hpaced | exact Hex |].
  split; [now apply readUdp_defined |].
  split; [exact Hret |].
  split; [apply polled_unread |].
  split; [exact Hall |].
  intros Hr.
  destruct (TimeoutFacts.timeout_us_in_range udp_rate Hr) as (t' & Ht' & Hb & _).
  assert (t' = t) by congruence. subst t'. lia.
Qed.

Lemma returns_within_window_witness :
  exists o read,
    readUdp stale 200 (quiet 1900 1900 5) = Some o
    /\ has_returned o = true
    /\ quiet 1900 1900 5 = read ++ unread o
    /\ Forall (fun ev => clock_us ev < 6000 + 2000) read
    /\ (19 <= 200 <= 65535 -> 2379 <= 65536 - 6000).
Proof.
  apply (returns_within_window stale 200 6000 2000 (quiet 1900 1900 5)).
  - settle.
  - settle.
  - settle.
  - do 3 apply Exists_cons_tl. apply Exists_cons_hd. settle.
Defined.

(** X5. A clock whose readings, cut to 16 bits, all fall below the window
    keeps a call that receives no datagram of the agreed length in the
    loop: however many iterations the trace holds and however long they
    took, the call has not returned. *)
Theorem wrapped_clock_keeps_polling caller_packet udp_rate t tr :
  Timeout.timeout_us udp_rate = Some t ->
  0 < t ->
  size caller_packet <= INT_MAX ->
  trace_ok (size caller_packet) tr ->
  Forall (fun ev => ret (received ev) <> size caller_packet) tr ->
  Forall (fun ev => to_uint16 (clock_us ev) < t) tr ->
  exists st,
    readUdp caller_packet udp_rate tr = Some (Polling st)
    /\ udp_error st = true
    /\ recv_packet st = caller_packet.
Proof.
  intros Ht Hpos Hmax Hok Hnone Hlow.
  rewrite (readUdp_defined _ _ _ _ Ht).
  pose proof (poll_wrapped_clock t (size caller_packet) tr (entry caller_packet))
    as Hstay.
  destruct (poll_without_valid t (size caller_packet) tr (entry caller_packet))
    as (Hflag & Hbuf & _); auto.
  destruct (poll t (entry caller_packet) tr) as [st u | st].
  - exfalso. simpl in Hstay.
    assert (true = false) by (apply Hstay; auto).
    discriminate.
  - exists st. auto.
Qed.

Lemma wrapped_clock_keeps_polling_witness :
  exists st,
    readUdp stale 200 (quiet 65536 65536 6) = Some (Polling st)
    /\ udp_error st = true
    /\ recv_packet st = stale.
Proof.
  apply (wrapped_clock_keeps_polling stale 200 6000 (quiet 65536 65536 6));
    settle.
Defined.

(** *** Long packets *)

(** X6. On a channel whose agreed packet length is above 32767 bytes no
    datagram passes the size test, those of the agreed length included:
    whatever arrives, the flag stays true and the caller's buffer is left
    as it was. *)
Theorem long_packets_never_accepted caller_packet udp_rate t tr :
  Timeout.timeout_us udp_rate = Some t ->
  32767 < size caller_packet <= INT_MAX ->
  trace_ok (size caller_packet) tr ->
  exists o,
    readUdp caller_packet udp_rate tr = Some o
    /\ udp_error (final o) = true
    /\ recv_packet (final o) = caller_packet.
Proof.
  intros Ht Hn Hok.
  exists (poll t (entry caller_packet) tr).
  split; [now apply readUdp_defined |].
  apply (poll_large_channel t (size caller_packet)); auto.
Qed.

Lemma long_packets_never_accepted_witness :
  exists o,
    readUdp big_stale 200
      [at_us 100 (datagram big_packet); at_us 200 (datagram big_packet);
       at_us 7000 nothing] = Some o
    /\ udp_error (final o) = true
    /\ recv_packet (final o) = big_stale.
Proof.
  apply (long_packets_never_accepted big_stale 200 6000
           [at_us 100 (datagram big_packet); at_us 200 (datagram big_packet);
            at_us 7000 nothing]).
  - vm_compute. reflexivity.
  - vm_compute. split; [reflexivity | intro; discriminate].
  - unfold trace_ok.
    repeat first [apply Forall_nil | apply Forall_cons]; vm_compute; settle.
Defined.

End ReadUdpMore.

(** ** More about the timeout window *)

Module TimeoutMore.

Import Timeout TimeoutFacts.

Lemma undefined_below_19 :
  holds_from (fun r => match timeout_us r with None => true | Some _ => false end)
    0 19 = true.
Proof. vm_compute. reflexivity. Qed.

(** X7. For a [uint16_t] rate, line 63 yields a window exactly when the
    rate is at least 19 Hz: for 0 the quotient is infinite, and for 1 to 18
    the product exceeds 65535, so the conversion to [uint16_t] is undefined.
    A window that is defined lies between 18 and 63157 microseconds. *)
Theorem window_defined_from_19_hz udp_rate :
  0 <= udp_rate <= 65535 ->
  (timeout_us udp_rate = None <-> udp_rate <= 18)
  /\ (forall t, timeout_us udp_rate = Some t -> 18 <= t <= 63157).
Proof.
  intros Hr.
  destruct (Z_le_gt_dec udp_rate 18) as [Hlow | Hhigh].
  - assert (timeout_us udp_rate = None) as Hnone.
    { pose proof (holds_from_spec _ 19 0 udp_rate undefined_below_19) as H.
      simpl in H. specialize (H ltac:(lia)).
      destruct (timeout_us udp_rate); [discriminate | reflexivity]. }
    split; [tauto |]. intros t Ht. congruence.
  - destruct (timeout_us_in_range udp_rate ltac:(lia)) as (t & Ht & Hb & _).
    split.
    + split; [congruence | lia].
    + intros t' Ht'. assert (t' = t) by congruence. subst t'. exact Hb.
Qed.

Lemma window_defined_from_19_hz_witness :
  (timeout_us 18 = None <-> 18 <= 18)
  /\ (forall t, timeout_us 18 = Some t -> 18 <= t <= 63157).
Proof. apply (window_defined_from_19_hz 18). lia. Defined.

(** X8. Among the rates from 19 to 65535 Hz, a higher rate never gets a
    longer window. *)
Theorem window_shrinks_with_rate slow fast t_slow t_fast :
  19 <= slow <= fast -> fast <= 65535 ->
  timeout_us slow = Some t_slow ->
  timeout_us fast = Some t_fast ->
  t_fast <= t_slow.
Proof.
  intros Hs Hf Hts Htf.
  destruct (timeout_us_in_range slow ltac:(lia)) as (t1 & Ht1 & Hb1 & Hlo1 & Hhi1).
  destruct (timeout_us_in_range fast ltac:(lia)) as (t2 & Ht2 & Hb2 & Hlo2 & Hhi2).
  assert (t1 = t_slow) by congruence. assert (t2 = t_fast) by congruence.
  subst t1 t2.
  destruct (Z_le_gt_dec t_fast t_slow) as [Hle | Hgt]; [exact Hle | exfalso].
  assert ((t_slow + 1) * fast <= t_fast * fast) by nia.
  assert ((t_slow + 1) * slow <= (t_slow + 1) * fast) by nia.
  destruct (Z.eq_dec slow fast) as [-> | Hne];
    [assert (t_slow = t_fast) by congruence; lia |].
  assert ((t_slow + 1) * slow < (t_slow + 1) * fast) by nia.
  lia.
Qed.

Lemma window_shrinks_with_rate_witness :
  timeout_us 100 = Some 12000 /\ timeout_us 200 = Some 6000 /\ 6000 <= 12000.
Proof.
  split; [vm_compute; reflexivity |]. split; [vm_compute; reflexivity |].
  apply (window_shrinks_with_rate 100 200 12000 6000);
    first [lia | vm_compute; reflexivity].
Defined.

End TimeoutMore.

(** ** More about the endpoints *)

Module EndpointMore.

Import Endpoint EndpointLife EndpointFacts.

(** Runs constructors and destructors symbolically, after splitting on
    every answer of the system. *)
Ltac run_endpoint sys :=
  unfold UdpExample, destroy_UdpExample, scoped, destroy, UdpClient, UdpServer,
    initialize_winsock, bind, WSAStartup, WSACleanup, getaddrinfo, socket,
    ioctlsocket, bind_socket, freeaddrinfo, closesocket, throw, pure,
    server_steps_ok, client_steps_ok, same_holdings;
  destruct (WSAStartup_result sys =? 0) eqn:?Hw,
    (getaddrinfo_r sys =? 0) eqn:?Hg, (getaddrinfo_null sys) eqn:?Hn,
    (socket_invalid sys) eqn:?Hs, (ioctlsocket_r sys =? 0) eqn:?Hi,
    (bind_r sys =? 0) eqn:?Hb;
  repeat (progress (cbn; rewrite ?Hw, ?Hg, ?Hn, ?Hs, ?Hi, ?Hb)).

(** X9. Whether a constructor returns normally depends on exactly the steps
    it checks: address resolution, socket creation and non-blocking mode,
    and for [UdpServer] also [bind]. A failed [WSAStartup] is reported on
    [cerr] and does not stop the construction. *)
Theorem construction_succeeds_iff sys l :
  (fst (UdpClient sys l) = Done tt <-> client_steps_ok sys = true)
  /\ (fst (UdpServer sys l) = Done tt <-> server_steps_ok sys = true).
Proof.
  run_endpoint sys; repeat split; intros H;
    first [reflexivity | discriminate].
Qed.

(** X10. An endpoint that is constructed and then destroyed gives back what
    it took: the process holds as many address lists and open sockets as
    before, and, when [WSAStartup] succeeded, as many references to Winsock.
    In between it holds exactly one more of each. *)
Theorem scoped_endpoint_gives_back sys l :
  server_steps_ok sys = true ->
  let built := snd (UdpServer sys l) in
  let gone := snd (scoped (UdpServer sys) l) in
  fst (scoped (UdpServer sys) l) = Done tt
  /\ addrinfo_held built = S (addrinfo_held l)
  /\ sockets_open built = S (sockets_open l)
  /\ same_holdings l gone
  /\ (WSAStartup_result sys = 0 -> winsock_refs gone = winsock_refs l)
  /\ UdpClient sys l = UdpServer sys l.
Proof.
  run_endpoint sys; intros Hok; try discriminate;
    repeat split; try reflexivity;
    intros Hz; apply Z.eqb_eq in Hz; congruence.
Qed.

Lemma scoped_endpoint_gives_back_witness :
  let built := snd (UdpServer all_succeed nothing_held) in
  let gone := snd (scoped (UdpServer all_succeed) nothing_held) in
  fst (scoped (UdpServer all_succeed) nothing_held) = Done tt
  /\ addrinfo_held built = S (addrinfo_held nothing_held)
  /\ sockets_open built = S (sockets_open nothing_held)
  /\ same_holdings nothing_held gone
  /\ (WSAStartup_result all_succeed = 0
      -> winsock_refs gone = winsock_refs nothing_held)
  /\ UdpClient all_succeed nothing_held = UdpServer all_succeed nothing_held.
Proof. apply (scoped_endpoint_gives_back all_succeed nothing_held). reflexivity. Defined.

(** X11. After a successful [WSAStartup], every throw of [UdpServer] is
    preceded by a [WSACleanup], so the count of Winsock references is what
    it was. [UdpClient] does the same except when address resolution fails:
    that branch throws without [WSACleanup] and leaves one reference more. *)
Theorem winsock_references_on_failure sys l e l' :
  WSAStartup_result sys = 0 ->
  (UdpServer sys l = (Thrown e, l') -> winsock_refs l' = winsock_refs l)
  /\ (UdpClient sys l = (Thrown e, l') ->
      winsock_refs l'
      = match e with
        | invalid_address_or_port => S (winsock_refs l)
        | _ => winsock_refs l
        end).
Proof.
  intros Hz. apply Z.eqb_eq in Hz.
  run_endpoint sys; try discriminate;
    split; intros Heq; inversion Heq; subst; reflexivity.
Qed.

Lemma winsock_references_on_failure_witness :
  UdpServer unresolved nothing_held
  = (Thrown invalid_address_or_port, nothing_held)
  /\ UdpClient unresolved nothing_held
     = (Thrown invalid_address_or_port, mkLedger 1 0 0)
  /\ winsock_refs nothing_held = winsock_refs nothing_held
  /\ winsock_refs (mkLedger 1 0 0) = S (winsock_refs nothing_held).
Proof.
  split; [reflexivity |]. split; [reflexivity |]. split.
  - apply (proj1 (winsock_references_on_failure unresolved nothing_held
                    invalid_address_or_port nothing_held eq_refl)).
    reflexivity.
  - apply (proj2 (winsock_references_on_failure unresolved nothing_held
                    invalid_address_or_port (mkLedger 1 0 0) eq_refl)).
    reflexivity.
Defined.

(** X12. A construction that fails at address resolution, at socket
    creation or at [bind] leaves the process holding the address lists and
    sockets it held before: what the constructor acquired up to that point
    has been released. *)
Theorem failed_construction_unwinds sys l e l' :
  e <> failed_to_set_non_blocking ->
  (UdpClient sys l = (Thrown e, l') -> same_holdings l l')
  /\ (UdpServer sys l = (Thrown e, l') -> same_holdings l l').
Proof.
  intros Hne. split; intros Hthrown.
  - eapply UdpClient_unwinds; eauto.
  - eapply UdpServer_unwinds; eauto.
Qed.

Lemma failed_construction_unwinds_witness :
  UdpServer port_taken nothing_held = (Thrown could_not_bind, nothing_held)
  /\ same_holdings nothing_held nothing_held.
Proof.
  split; [reflexivity |].
  apply (proj2 (failed_construction_unwinds port_taken nothing_held
                  could_not_bind nothing_held ltac:(discriminate))).
  reflexivity.
Defined.

(** What a successful construction leaves in the ledger. *)
Lemma built_holds_one_more sys l l' :
  UdpClient sys l = (Done tt, l') \/ UdpServer sys l = (Done tt, l') ->
  addrinfo_held l' = S (addrinfo_held l)
  /\ sockets_open l' = S (sockets_open l).
Proof.
  run_endpoint sys; intros [Heq | Heq]; inversion Heq; subst;
    split; reflexivity.
Qed.

(** X13. [UdpExample] builds its sending endpoint first. If that fails the
    receiving endpoint is not attempted. If the receiving endpoint then
    fails for any reason but a refused non-blocking mode, the sending
    endpoint is destroyed again and the process holds the address lists and
    sockets it held before. If both succeed the object holds two of each,
    and destroying it gives them back. *)
Theorem example_construction sys_send sys_recv l :
  (client_steps_ok sys_send = false ->
   UdpExample sys_send sys_recv l = UdpClient sys_send l)
  /\ (forall e l',
         client_steps_ok sys_send = true ->
         UdpExample sys_send sys_recv l = (Thrown e, l') ->
         e <> failed_to_set_non_blocking ->
         same_holdings l l')
  /\ (forall l',
         UdpExample sys_send sys_recv l = (Done tt, l') ->
         addrinfo_held l' = S (S (addrinfo_held l))
         /\ sockets_open l' = S (S (sockets_open l))
         /\ same_holdings l (snd (destroy_UdpExample l'))).
Proof.
  split; [| split].
  - intros Hfail.
    pose proof (proj1 (construction_succeeds_iff sys_send l)) as Hiff.
    unfold UdpExample.
    destruct (UdpClient sys_send l) as [[[] | e] l1]; [| reflexivity].
    simpl in Hiff. rewrite (proj1 Hiff eq_refl) in Hfail. discriminate.
  - intros e l' Hok Hthrown Hne.
    unfold UdpExample in Hthrown.
    destruct (UdpClient sys_send l) as [[[] | e1] l1] eqn:Hclient.
    + pose proof (built_holds_one_more sys_send l l1 (or_introl Hclient))
        as [Ha Hs].
      destruct (UdpServer sys_recv l1) as [[[] | e'] l2] eqn:Hserver;
        [discriminate |].
      injection Hthrown as <- <-.
      pose proof (UdpServer_unwinds sys_recv l1 e' l2 Hserver Hne) as [Ha2 Hs2].
      unfold same_holdings, destroy, bind, freeaddrinfo, closesocket, WSACleanup.
      cbn. rewrite Ha2, Hs2, Ha, Hs. split; reflexivity.
    + pose proof (proj1 (construction_succeeds_iff sys_send l)) as Hiff.
      rewrite Hclient in Hiff. simpl in Hiff.
      apply Hiff in Hok. discriminate.
  - intros l' Hdone.
    unfold UdpExample in Hdone.
    destruct (UdpClient sys_send l) as [[[] | e] l1] eqn:Hclient;
      [| discriminate].
    destruct (UdpServer sys_recv l1) as [[[] | e'] l2] eqn:Hserver;
      [| discriminate].
    injection Hdone as <-.
    pose proof (built_holds_one_more sys_send l l1 (or_introl Hclient))
      as [Ha Hs].
    pose proof (built_holds_one_more sys_recv l1 l2 (or_intror Hserver))
      as [Ha2 Hs2].
    unfold same_holdings, destroy_UdpExample, destroy, bind, freeaddrinfo,
      closesocket, WSACleanup.
    cbn. rewrite Ha2, Hs2, Ha, Hs. repeat split; reflexivity.
Qed.

Lemma example_construction_witness :
  UdpExample all_succeed port_taken nothing_held
  = (Thrown could_not_bind, nothing_held)
  /\ same_holdings nothing_held nothing_held.
Proof.
  split; [reflexivity |].
  apply (proj1 (proj2 (example_construction all_succeed port_taken nothing_held))
           could_not_bind nothing_held).
  - reflexivity.
  - reflexivity.
  - discriminate.
Defined.

End EndpointMore.

(** ** The example application *)

Module ExampleFacts.

Import Width Packet Env UdpUtils Example WidthFacts ReadUdpFacts.

Ltac settle :=
  repeat first
    [ apply Forall_nil
    | apply Forall_cons
    | split
    | reflexivity
    | (intro; discriminate)
    | (intros; reflexivity)
    | (let H := fresh in intro H; exfalso; apply H; reflexivity)
    | progress vm_compute ].

(** *** Lists as arrays *)

Lemma firstn_length_app {A} (a b : list A) : firstn (length a) (a ++ b) = a.
Proof. induction a as [| x a IH]; simpl; [now destruct b | now rewrite IH]. Qed.

Lemma skipn_length_app {A} (a b : list A) (k : nat) :
  skipn (length a + k) (a ++ b) = skipn k b.
Proof. induction a as [| x a IH]; simpl; auto. Qed.

Lemma flat_length (l : list float32) :
  length (concat (map bytes_of l)) = (4 * length l)%nat.
Proof.
  induction l as [| [[[a b] c] d] l IH]; simpl; [reflexivity |].
  rewrite IH. lia.
Qed.

Lemma flat_snoc (l : list float32) (f : float32) :
  concat (map bytes_of (l ++ [f])) = concat (map bytes_of l) ++ bytes_of f.
Proof. now rewrite map_app, concat_app; simpl; rewrite app_nil_r. Qed.

Lemma to_uint8_small z : 0 <= z < 256 -> to_uint8 z = z.
Proof. intros Hz. unfold to_uint8. now rewrite Z.mod_small. Qed.

(** *** The two loops *)

(** The loop of [sendUDP] once [done] has been copied. *)
Lemma pack_loop_from : forall todo done tail fuel,
  length tail = (4 * length todo)%nat ->
  (length done + length todo <= 63)%nat ->
  (length todo < fuel)%nat ->
  pack_loop fuel (Z.of_nat (length done)) (Z.of_nat (4 * length done))
    (done ++ todo) (concat (map bytes_of done) ++ tail)
  = Finished (concat (map bytes_of (done ++ todo))).
Proof.
  induction todo as [| f todo IH]; intros done tail fuel Htail Hmax Hfuel;
    (destruct fuel as [| k]; [lia |]); cbn [pack_loop].
  - rewrite app_nil_r, Z.ltb_irrefl.
    destruct tail; [| discriminate]. now rewrite app_nil_r.
  - simpl length in Htail, Hmax, Hfuel.
    assert ((Z.of_nat (length done) <? Z.of_nat (length (done ++ f :: todo)))
            = true) as ->
      by (apply Z.ltb_lt; rewrite length_app; simpl; lia).
    rewrite Nat2Z.id, nth_error_app2, Nat.sub_diag by lia. simpl nth_error.
    unfold store_float. rewrite Nat2Z.id.
    assert ((4 * length done + 4 <=? length (concat (map bytes_of done) ++ tail))%nat
            = true) as ->
      by (apply Nat.leb_le; rewrite length_app, flat_length, Htail; simpl; lia).
    assert (firstn (4 * length done) (concat (map bytes_of done) ++ tail)
            = concat (map bytes_of done)) as ->
      by (rewrite <- (flat_length done); apply firstn_length_app).
    assert (skipn (4 * length done + 4) (concat (map bytes_of done) ++ tail)
            = skipn 4 tail) as ->
      by (rewrite <- (flat_length done); apply skipn_length_app).
    replace (to_uint8 (Z.of_nat (length done) + 1))
      with (Z.of_nat (length (done ++ [f])))
      by (rewrite to_uint8_small; rewrite ?length_app; simpl; lia).
    replace (to_uint8 (Z.of_nat (4 * length done) + sizeof_float))
      with (Z.of_nat (4 * length (done ++ [f])))
      by (unfold sizeof_float; rewrite to_uint8_small;
          rewrite ?length_app; simpl; lia).
    replace (done ++ f :: todo) with ((done ++ [f]) ++ todo)
      by (now rewrite <- app_assoc).
    replace (concat (map bytes_of done) ++ bytes_of f ++ skipn 4 tail)
      with (concat (map bytes_of (done ++ [f])) ++ skipn 4 tail)
      by (now rewrite flat_snoc, <- app_assoc).
    apply IH.
    + rewrite length_skipn, Htail. simpl. lia.
    + rewrite length_app. simpl in *. lia.
    + simpl in Hfuel. lia.
Qed.

(** The loop of [readUDP] once [done] has been copied out. *)
Lemma unpack_loop_from : forall todo done old fuel,
  length old = length todo ->
  (length done + length todo <= 63)%nat ->
  (length todo < fuel)%nat ->
  unpack_loop fuel (Z.of_nat (4 * length done)) (Z.of_nat (length done))
    (concat (map bytes_of (done ++ todo))) (done ++ old)
  = Finished (done ++ todo).
Proof.
  induction todo as [| f todo IH]; intros done old fuel Hold Hmax Hfuel;
    (destruct fuel as [| k]; [lia |]); cbn [unpack_loop].
  - rewrite app_nil_r. unfold size. rewrite flat_length, Z.ltb_irrefl.
    destruct old; [| discriminate]. now rewrite app_nil_r.
  - simpl length in Hold, Hmax, Hfuel.
    assert ((Z.of_nat (4 * length done)
             <? size (concat (map bytes_of (done ++ f :: todo)))) = true) as ->
      by (apply Z.ltb_lt; unfold size;
          rewrite flat_length, length_app; simpl; lia).
    rewrite !Nat2Z.id.
    assert (load_float (4 * length done)
              (concat (map bytes_of (done ++ f :: todo))) = Some f) as ->.
    { unfold load_float.
      rewrite map_app, concat_app.
      assert (skipn (4 * length done)
                (concat (map bytes_of done) ++ concat (map bytes_of (f :: todo)))
              = concat (map bytes_of (f :: todo))) as ->.
      { rewrite <- (flat_length done).
        rewrite <- (Nat.add_0_r (length (concat (map bytes_of done)))).
        apply skipn_length_app. }
      now destruct f as [[[a b] c] d]. }
    destruct old as [| o old]; [discriminate |].
    unfold store_at.
    assert ((length done <? length (done ++ o :: old))%nat = true) as ->
      by (apply Nat.ltb_lt; rewrite length_app; simpl; lia).
    rewrite firstn_length_app.
    assert (skipn (S (length done)) (done ++ o :: old) = old) as ->
      by (replace (S (length done)) with (length done + 1)%nat by lia;
          apply skipn_length_app).
    replace (to_uint8 (Z.of_nat (4 * length done) + sizeof_float))
      with (Z.of_nat (4 * length (done ++ [f])))
      by (unfold sizeof_float; rewrite to_uint8_small;
          rewrite ?length_app; simpl; lia).
    replace (to_uint8 (Z.of_nat (length done) + 1))
      with (Z.of_nat (length (done ++ [f])))
      by (rewrite to_uint8_small; rewrite ?length_app; simpl; lia).
    replace (done ++ f :: todo) with ((done ++ [f]) ++ todo)
      by (now rewrite <- app_assoc).
    replace (done ++ f :: old) with ((done ++ [f]) ++ old)
      by (now rewrite <- app_assoc).
    apply IH.
    + simpl in Hold. lia.
    + rewrite length_app. simpl in *. lia.
    + simpl in Hfuel. lia.
Qed.

(** X14. The loop of [sendUDP] lays the floats of [send_data_] out one
    after the other in the packet, and the loop of [readUDP], run on that
    packet, puts the same floats into [receive_data_], whatever the arrays
    held before. With the [uint8_t] counters this holds for up to 63
    floats per packet; both loops end after one test more than there are
    floats. *)
Theorem pack_then_unpack data packet old fuel :
  (length data <= 63)%nat ->
  length packet = (4 * length data)%nat ->
  length old = length data ->
  (length data < fuel)%nat ->
  pack_loop fuel 0 0 data packet = Finished (concat (map bytes_of data))
  /\ unpack_loop fuel 0 0 (concat (map bytes_of data)) old = Finished data.
Proof.
  intros Hmax Hpacket Hold Hfuel. split.
  - apply (pack_loop_from data [] packet fuel); simpl; auto.
  - apply (unpack_loop_from data [] old fuel); simpl; auto.
Qed.

Lemma pack_then_unpack_witness :
  pack_loop 3 0 0 [one_f; two_f] (repeat Byte.xee 8)
  = Finished (concat (map bytes_of [one_f; two_f]))
  /\ unpack_loop 3 0 0 (concat (map bytes_of [one_f; two_f])) [zero_f; zero_f]
     = Finished [one_f; two_f].
Proof.
  apply (pack_then_unpack [one_f; two_f] (repeat Byte.xee 8) [zero_f; zero_f] 3);
    simpl; lia.
Defined.

(** *** One cycle of [main] *)

Lemma timeout_at_UDP_RATE : Timeout.timeout_us UDP_RATE = Some 6000.
Proof. vm_compute. reflexivity. Qed.

(** A window in which one datagram of the agreed length arrives and the
    next [recv] finds nothing. *)
Lemma poll_single_datagram t caller_packet d c1 c2 :
  0 < t -> 4 <= size caller_packet <= 32767 -> size d = size caller_packet ->
  exists st u,
    poll t (entry caller_packet) [mkEvent (datagram d) c1; mkEvent nothing c2]
    = Returned st u
    /\ udp_error st = false
    /\ recv_packet st = if sequence_of d >? 0 then d else caller_packet.
Proof.
  intros Ht Hn Hd.
  pose proof (entry_sized caller_packet) as Hsized.
  assert (Hacc := receive_step_accepts (entry caller_packet) (datagram d)).
  change (ret (datagram d)) with (size d) in Hacc.
  change (stored (datagram d)) with d in Hacc.
  rewrite Hd in Hacc.
  destruct Hacc as [Hflag Hbuf]; [exact Hsized | lia | reflexivity |].
  change (highest_sequence_number (entry caller_packet)) with 0 in Hbuf.
  change (recv_packet (entry caller_packet)) with caller_packet in Hbuf.
  assert (recv_ok (size caller_packet) (datagram d)) as Hev
    by (unfold recv_ok, datagram; simpl; lia).
  pose proof (receive_step_sized _ _ _ Hsized Hev) as [Hsize' _].
  rewrite poll_step by (simpl; lia).
  destruct (iteration_cases (entry caller_packet) (mkEvent (datagram d) c1))
    as [(_ & _ & Hm) | (-> & _)].
  { exfalso. simpl in Hm. rewrite Hd, to_int16_small in Hm; lia. }
  set (st1 := update_elapsed _ _).
  assert (udp_error st1 = false) as Hflag1 by exact Hflag.
  assert (recv_packet st1 = if sequence_of d >? 0 then d else caller_packet)
    as Hbuf1 by exact Hbuf.
  assert (size (recv_packet st1) = size caller_packet) as Hsize1 by exact Hsize'.
  destruct (Z_lt_le_dec (elapsed_time_us st1) t) as [Hlt | Hge].
  - rewrite poll_step by exact Hlt.
    destruct (iteration_cases st1 (mkEvent nothing c2))
      as [(-> & Hclear & _) | (_ & [Hset | Hret])].
    + exists (receive_step st1 nothing), []. split; [reflexivity |].
      split; [exact Hclear |].
      destruct (receive_step_rejects st1 nothing) as [Hsame _].
      * rewrite Hsize1. unfold INT_MAX. lia.
      * rewrite Hsize1. unfold recv_ok, nothing. simpl.
        change (size []) with 0. lia.
      * rewrite Hsize1. simpl. lia.
      * simpl received in Hsame |- *. now rewrite Hsame.
    + exfalso. simpl received in Hset.
      rewrite (receive_step_flag_stays_clear st1 nothing Hflag1) in Hset.
      discriminate.
    + exfalso. apply Hret. reflexivity.
  - exists st1, [mkEvent nothing c2].
    rewrite poll_expired by exact Hge. auto.
Qed.

(** X15. One cycle of [main] in which the datagram just sent is the one
    that arrives. [sendUDP] stores the two floats in [send_data_] and sends
    them as eight bytes. [readUDP] prints "Message Received" in every case;
    the floats it prints are the ones sent unless the first of them has
    four zero bytes (the float +0.0, from [rand()] returning 0): [readUdp]
    takes those bytes for sequence number 0 and does not copy the packet,
    so the floats printed are the ones still in [receive_packet_]. *)
Theorem send_then_read m r0 r1 c1 c2 fuel :
  well_sized m ->
  (2 < fuel)%nat ->
  exists m1 m2 stale0 stale1,
    sendUDP fuel r0 r1 m = Finished (m1, bytes_of r0 ++ bytes_of r1)
    /\ send_data_ m1 = [r0; r1]
    /\ floats_in (receive_packet_ m) = Some (stale0, stale1)
    /\ readUDP fuel
         [mkEvent (datagram (bytes_of r0 ++ bytes_of r1)) c1; mkEvent nothing c2]
         m1
       = Finished
           (m2,
            if sequence_of (bytes_of r0) >? 0
            then Message_Received r0 r1
            else Message_Received stale0 stale1).
Proof.
  intros (Hrp & Hsp & Hsd & Hrd) Hfuel.
  destruct m as [rp sp sd rd]. simpl in Hrp, Hsp, Hsd, Hrd.
  assert (PACKET_SIZE = 8) as Hps by reflexivity.
  assert (NUM_FLOATS = 2) as Hnf by reflexivity.
  rewrite Hps in Hrp, Hsp. rewrite Hnf in Hsd, Hrd. unfold size in Hrp, Hsp.
  destruct fuel as [| [| [| k]]]; try lia.
  destruct sd as [| x0 [| x1 [| ? ?]]]; simpl in Hsd; try lia.
  destruct rd as [| y0 [| y1 [| ? ?]]]; simpl in Hrd; try lia.
  destruct sp as [| s0 [| s1 [| s2 [| s3 [| s4 [| s5 [| s6 [| s7 [| ? ?]]]]]]]]];
    simpl in Hsp; try lia.
  destruct rp as [| b0 [| b1 [| b2 [| b3 [| b4 [| b5 [| b6 [| b7 [| ? ?]]]]]]]]];
    simpl in Hrp; try lia.
  destruct r0 as [[[p0 p1] p2] p3]. destruct r1 as [[[q0 q1] q2] q3].
  set (sent := (p0, p1, p2, p3)). set (sent' := (q0, q1, q2, q3)).
  set (rp := [b0; b1; b2; b3; b4; b5; b6; b7]).
  set (d := bytes_of sent ++ bytes_of sent').
  destruct (poll_single_datagram 6000 rp d c1 c2) as (st & u & Hrun & Hflag & Hbuf);
    [lia | vm_compute; split; intro; discriminate | reflexivity |].
  change (sequence_of d) with (sequence_of (bytes_of sent)) in Hbuf.
  assert (forall out shown,
             unpack_loop (S (S (S k))) 0 0 (recv_packet st) [y0; y1]
             = Finished out ->
             match out with
             | first :: second :: _ => Message_Received first second = shown
             | _ => False
             end ->
             exists m2,
               readUDP (S (S (S k)))
                 [mkEvent (datagram d) c1; mkEvent nothing c2]
                 {| receive_packet_ := rp;
                    send_packet_ := bytes_of sent ++ bytes_of sent';
                    send_data_ := [sent; sent'];
                    receive_data_ := [y0; y1] |}
               = Finished (m2, shown)) as Hprint.
  { intros out shown Hout Hshown.
    unfold readUDP. cbn [receive_packet_ receive_data_ send_packet_ send_data_].
    rewrite (readUdp_defined _ _ _ _ timeout_at_UDP_RATE).
    rewrite Hrun, Hflag. cbn [negb]. rewrite Hout.
    destruct out as [| first [| second rest]]; try contradiction.
    rewrite <- Hshown. eexists. reflexivity. }
  destruct (sequence_of (bytes_of sent) >? 0).
  - destruct (Hprint [sent; sent'] (Message_Received sent sent')) as [m2 Hm2];
      [| reflexivity |].
    { rewrite Hbuf.
      apply (unpack_loop_from [sent; sent'] [] [y0; y1]); simpl; lia. }
    exists {| receive_packet_ := rp;
              send_packet_ := bytes_of sent ++ bytes_of sent';
              send_data_ := [sent; sent'];
              receive_data_ := [y0; y1] |}, m2,
      (b0, b1, b2, b3), (b4, b5, b6, b7).
    repeat split; try reflexivity; exact Hm2.
  - destruct (Hprint [(b0, b1, b2, b3); (b4, b5, b6, b7)]
                (Message_Received (b0, b1, b2, b3) (b4, b5, b6, b7)))
      as [m2 Hm2]; [| reflexivity |].
    { rewrite Hbuf.
      apply (unpack_loop_from [(b0, b1, b2, b3); (b4, b5, b6, b7)] []
               [y0; y1]); simpl; lia. }
    exists {| receive_packet_ := rp;
              send_packet_ := bytes_of sent ++ bytes_of sent';
              send_data_ := [sent; sent'];
              receive_data_ := [y0; y1] |}, m2,
      (b0, b1, b2, b3), (b4, b5, b6, b7).
    repeat split; try reflexivity; exact Hm2.
Qed.

Lemma send_then_read_witness :
  exists m1 m2 stale0 stale1,
    sendUDP 3 zero_f one_f used = Finished (m1, bytes_of zero_f ++ bytes_of one_f)
    /\ send_data_ m1 = [zero_f; one_f]
    /\ floats_in (receive_packet_ used) = Some (stale0, stale1)
    /\ readUDP 3
         [mkEvent (datagram (bytes_of zero_f ++ bytes_of one_f)) 100;
          mkEvent nothing 200]
         m1
       = Finished
           (m2,
            if sequence_of (bytes_of zero_f) >? 0
            then Message_Received zero_f one_f
            else Message_Received stale0 stale1).
Proof.
  apply (send_then_read used zero_f one_f 100 200 3).
  - settle.
  - lia.
Defined.

(** X16. A cycle in which no datagram of eight bytes arrives before the
    window elapses: [readUDP] prints "UDP Timeout!" and leaves the object
    as it was, the floats received earlier included. *)
Theorem read_without_packet m tr fuel :
  well_sized m ->
  trace_ok PACKET_SIZE tr ->
  Forall (fun ev => ret (received ev) <> PACKET_SIZE) tr ->
  Exists (fun ev => 6000 <= to_uint16 (clock_us ev)) tr ->
  readUDP fuel tr m = Finished (m, UDP_Timeout).
Proof.
  intros (Hrp & _) Hok Hnone Hexpires.
  unfold readUDP. rewrite (readUdp_defined _ _ _ _ timeout_at_UDP_RATE).
  destruct (poll_without_valid 6000 PACKET_SIZE tr (entry (receive_packet_ m)))
    as (Hflag & Hbuf & Hret); auto.
  { vm_compute. intro. discriminate. }
  specialize (Hret Hexpires).
  destruct (poll 6000 (entry (receive_packet_ m)) tr) as [st u | st];
    [| discriminate].
  simpl in Hflag, Hbuf. rewrite Hflag, Hbuf. simpl.
  now destruct m.
Qed.

Lemma read_without_packet_witness :
  readUDP 3 (Scenario.at_us 100 (datagram Scenario.P5_short)
               :: Scenario.quiet 2000 2000 3) used
  = Finished (used, UDP_Timeout).
Proof.
  apply (read_without_packet used
           (Scenario.at_us 100 (datagram Scenario.P5_short)
              :: Scenario.quiet 2000 2000 3) 3).
  - settle.
  - settle.
  - settle.
  - do 3 apply Exists_cons_tl. apply Exists_cons_hd. settle.
Defined.

End ExampleFacts.
